(** * knittingpattern.Dumper: writing objects to files

    A shallow embedding of [knittingpattern/Dumper.py] (classes
    [ContentDumper] and [JSONDumper]) together with the part of the Python
    runtime the module leans on: file-like objects ([io.StringIO], files
    opened with [open(path, "w")], [tempfile.NamedTemporaryFile]), the
    [with] statement, and [json.dump].

    Python [str] values are lists of characters; the characters are the
    code points below 256.  Floating point numbers are outside the model. *)

From Stdlib Require Import ZArith Ascii String List Lia.
From Stdlib Require DecimalFacts DecimalPos DecimalZ.
From stdpp Require Import gmap strings list fin_maps.

Local Open Scope nat_scope.

(** ** Text *)

Abbreviation text := (list ascii).

Definition str (s : string) : text := list_ascii_of_string s.

(** ** Python values handed to [json.dump] *)

(** Dictionary keys.  [json] accepts [str], [int], [bool] and [None] keys
    (converting all of them to strings) and rejects every other key. *)
Inductive pykey :=
| KStr (s : text)
| KInt (z : Z)
| KBool (b : bool)
| KNone
| KOther (id : nat).

(** [PyDict] lists the items in insertion order, the order in which Python
    iterates over a [dict].  [PyOther] stands for any object the default
    encoder has no case for (a set, bytes, an instance of a user class). *)
Unset Elimination Schemes.
Inductive pyobj :=
| PyNone
| PyBool (b : bool)
| PyInt (z : Z)
| PyStr (s : text)
| PyList (l : list pyobj)
| PyTuple (l : list pyobj)
| PyDict (d : list (pykey * pyobj))
| PyOther (id : nat).
Set Elimination Schemes.

(** ** Exceptions *)

Inductive exn :=
| ValueError            (* I/O operation on closed file *)
| UnsupportedOperation  (* io.UnsupportedOperation: not readable *)
| AttributeError        (* the object has no such attribute *)
| TypeError             (* Object of type ... is not JSON serializable *)
| FileExistsError       (* No usable temporary file name found *)
| OSError (errno : nat) (* failure reported by the operating system *)
| UserError (tag : nat) (* raised by a function the caller supplied *).

Inductive result (A : Type) :=
| Ok (a : A)
| Raise (e : exn).
Arguments Ok {A} a.
Arguments Raise {A} e.

(** ** File-like objects *)

Inductive mode := ModeW | ModeWPlus.
Inductive encoding := PlatformDefault | UTF8.

(** How a file-like object came into being. *)
Inductive origin :=
| StringIO
| OpenedFile (p : text) (m : mode) (enc : encoding)
| TemporaryFile (p : text) (m : mode) (enc : encoding) (delete : bool).

(** [f_buf] is the content as seen through the object: for a [StringIO] the
    buffer itself, for a file on disk the content including data that was
    written but not flushed yet. *)
Record fobj := FObj {
  f_origin : origin;
  f_buf : text;
  f_pos : nat;
  f_closed : bool
}.

Abbreviation handle := nat.

(** ** The world a call runs in

    - [handles]: the heap of file-like objects, a handle is an index;
    - [fs]: the file system, path to content;
    - [faults]: what the operating system answers to the next requests
      ([None]: success, [Some e]: the request fails with [e]); an empty
      list means no further failures;
    - [tmp_seed]: state of the generator of temporary file names;
    - [kept]: file-like objects that caller-supplied code stored a
      reference to. *)
Record World := MkWorld {
  handles : list fobj;
  fs : gmap text text;
  faults : list (option exn);
  tmp_seed : nat;
  kept : list nat
}.

Definition set_handles (hs : list fobj) (w : World) : World :=
  MkWorld hs (fs w) (faults w) (tmp_seed w) (kept w).
Definition set_fs (m : gmap text text) (w : World) : World :=
  MkWorld (handles w) m (faults w) (tmp_seed w) (kept w).
Definition set_faults (t : list (option exn)) (w : World) : World :=
  MkWorld (handles w) (fs w) t (tmp_seed w) (kept w).
Definition set_tmp_seed (n : nat) (w : World) : World :=
  MkWorld (handles w) (fs w) (faults w) n (kept w).
Definition set_kept (k : list nat) (w : World) : World :=
  MkWorld (handles w) (fs w) (faults w) (tmp_seed w) k.

Definition empty_world : World := MkWorld [] ∅ [] 0 [].

(** ** Observable events

    The calls whose number the specification speaks about. *)
Inductive event :=
| Dumped (file : nat)       (* the dumper called its write-strategy on [file] *)
| Provided                  (* the object-provider was called *)
| Encoded (o : pyobj)       (* [json.dump] was called on [o] *).

(** ** The monad of Python computations: state, exceptions, event log *)

Record outcome (A : Type) := Outcome {
  value : result A;
  after : World;
  events : list event
}.
Arguments Outcome {A} value after events.
Arguments value {A} o.
Arguments after {A} o.
Arguments events {A} o.

Definition M (A : Type) : Type := World -> outcome A.

Definition ret {A} (a : A) : M A := fun w => Outcome (Ok a) w [].
Definition raise {A} (e : exn) : M A := fun w => Outcome (Raise e) w [].
Definition bind {A B} (m : M A) (k : A -> M B) : M B :=
  fun w =>
    let o := m w in
    match value o with
    | Ok a => let o' := k a (after o) in
              Outcome (value o') (after o') (events o ++ events o')
    | Raise e => Outcome (Raise e) (after o) (events o)
    end.

Notation "x <- m ;; k" := (bind m (fun x => k))
  (at level 100, m at next level, right associativity).
Notation "m ;;; k" := (bind m (fun _ => k))
  (at level 100, right associativity).

(** [try m] runs [m] and hands back how it ended instead of raising. *)
Definition try {A} (m : M A) : M (result A) :=
  fun w => let o := m w in Outcome (Ok (value o)) (after o) (events o).

Definition of_result {A} (r : result A) : M A :=
  match r with Ok a => ret a | Raise e => raise e end.

Definition emit (e : event) : M unit := fun w => Outcome (Ok tt) w [e].
Definition get_world : M World := fun w => Outcome (Ok w) w [].
Definition modify (f : World -> World) : M unit := fun w => Outcome (Ok tt) (f w) [].

(** Code supplied by the caller acts on the world and emits no event of
    its own. *)
Definition lift_user {A} (f : World -> result A * World) : M A :=
  fun w => let '(r, w') := f w in Outcome r w' [].

(** ** Operations of file-like objects *)

Definition NUL : ascii := "000"%char.

(** Writing [s] at position [p] of content [b]: the characters from [p] on
    are overwritten, a gap between the end of [b] and [p] is filled with
    NUL characters.  Writing the empty text changes nothing. *)
Definition write_at (b : text) (p : nat) (s : text) : text :=
  match s with
  | [] => b
  | _ => take p b ++ replicate (p - length b) NUL ++ s ++ drop (p + length s) b
  end.

Definition get_file (h : handle) : M fobj :=
  fun w => match handles w !! h with
           | Some f => Outcome (Ok f) w []
           | None => Outcome (Raise AttributeError) w []
           end.

Definition put_file (h : handle) (f : fobj) : M unit :=
  modify (fun w => set_handles (<[h := f]> (handles w)) w).

(** A new object on the heap; its handle is the next free index. *)
Definition alloc (f : fobj) : M handle :=
  fun w => Outcome (Ok (length (handles w)))
                   (set_handles (handles w ++ [f]) w) [].

(** A request to the operating system: it consumes the next answer. *)
Definition syscall : M unit :=
  fun w => match faults w with
           | Some e :: t => Outcome (Raise e) (set_faults t w) []
           | None :: t => Outcome (Ok tt) (set_faults t w) []
           | [] => Outcome (Ok tt) w []
           end.

Definition on_disk (o : origin) : option text :=
  match o with
  | StringIO => None
  | OpenedFile p _ _ => Some p
  | TemporaryFile p _ _ _ => Some p
  end.

Definition readable (o : origin) : bool :=
  match o with
  | StringIO => true
  | OpenedFile _ m _ | TemporaryFile _ m _ _ =>
      match m with ModeW => false | ModeWPlus => true end
  end.

Definition delete_on_close (o : origin) : bool :=
  match o with
  | TemporaryFile _ _ _ d => d
  | _ => false
  end.

(** [io.StringIO()] *)
Definition StringIO_new : M handle := alloc (FObj StringIO [] 0 false).

(** [file.write(s)].  Writing to a file on disk can make the text layer
    encode and hand data to the operating system, which may fail. *)
Definition write (h : handle) (s : text) : M nat :=
  f <- get_file h ;;
  if f_closed f then raise ValueError else
  match s, on_disk (f_origin f) with
  | _ :: _, Some _ => syscall
  | _, _ => ret tt
  end ;;;
  put_file h (FObj (f_origin f) (write_at (f_buf f) (f_pos f) s)
                   (f_pos f + length s) false) ;;;
  ret (length s).

(** [file.seek(p)] *)
Definition seek (h : handle) (p : nat) : M nat :=
  f <- get_file h ;;
  if f_closed f then raise ValueError else
  put_file h (FObj (f_origin f) (f_buf f) p false) ;;;
  ret p.

(** [file.read()]: everything from the current position to the end. *)
Definition read (h : handle) : M text :=
  f <- get_file h ;;
  if f_closed f then raise ValueError else
  if negb (readable (f_origin f)) then raise UnsupportedOperation else
  put_file h (FObj (f_origin f) (f_buf f) (Nat.max (f_pos f) (length (f_buf f))) false) ;;;
  ret (drop (f_pos f) (f_buf f)).

(** [file.name] *)
Definition name (h : handle) : M text :=
  f <- get_file h ;;
  match on_disk (f_origin f) with
  | Some p => ret p
  | None => raise AttributeError
  end.

(** [file.flush()]: the content seen through the object reaches the disk. *)
Definition flush (h : handle) : M unit :=
  f <- get_file h ;;
  if f_closed f then raise ValueError else
  match on_disk (f_origin f) with
  | None => ret tt
  | Some p => syscall ;;; modify (fun w => set_fs (<[p := f_buf f]> (fs w)) w)
  end.

(** [file.close()].  Closing a closed file does nothing.  Otherwise the
    file is flushed; whether or not that succeeds the object ends up
    closed, a temporary file created with [delete=True] is unlinked, and a
    failure of the flush is raised afterwards. *)
Definition close (h : handle) : M unit :=
  f <- get_file h ;;
  if f_closed f then ret tt else
  r <- try (flush h) ;;
  put_file h (FObj (f_origin f) (f_buf f) (f_pos f) true) ;;;
  match on_disk (f_origin f) with
  | Some p => if delete_on_close (f_origin f)
              then modify (fun w => set_fs (delete p (fs w)) w)
              else ret tt
  | None => ret tt
  end ;;;
  of_result r.

(** [open(path, "w")]: the file is created, or truncated when it exists. *)
Definition open_w (p : text) : M handle :=
  syscall ;;;
  modify (fun w => set_fs (<[p := []]> (fs w)) w) ;;;
  alloc (FObj (OpenedFile p ModeW PlatformDefault) [] 0 false).

(** [with file: body]: [body] runs, then [file.__exit__] closes the file
    whatever happened; an exception of the close wins over one of the
    body. *)
Definition with_file {A} (file : handle) (body : M A) : M A :=
  r <- try body ;;
  c <- try (close file) ;;
  match c with
  | Raise e => raise e
  | Ok _ => of_result r
  end.

(** ** Decimal numerals *)

Definition digit (n : nat) : ascii := ascii_of_nat (48 + n).

Fixpoint uint_text (u : Decimal.uint) : text :=
  match u with
  | Decimal.Nil => []
  | Decimal.D0 u => digit 0 :: uint_text u
  | Decimal.D1 u => digit 1 :: uint_text u
  | Decimal.D2 u => digit 2 :: uint_text u
  | Decimal.D3 u => digit 3 :: uint_text u
  | Decimal.D4 u => digit 4 :: uint_text u
  | Decimal.D5 u => digit 5 :: uint_text u
  | Decimal.D6 u => digit 6 :: uint_text u
  | Decimal.D7 u => digit 7 :: uint_text u
  | Decimal.D8 u => digit 8 :: uint_text u
  | Decimal.D9 u => digit 9 :: uint_text u
  end.

(** [int.__repr__] *)
Definition intstr (z : Z) : text :=
  match Z.to_int z with
  | Decimal.Pos u => uint_text u
  | Decimal.Neg u => "-"%char :: uint_text u
  end.

(** ** Temporary files *)

Definition TMP_MAX : nat := N.to_nat 10000.

(** The candidate name the generator produces in state [n]. *)
Definition tmpname (n : nat) : text := str "/tmp/tmp" ++ uint_text (Nat.to_uint n).

(** [tempfile._mkstemp_inner]: candidate names are tried until one does not
    exist yet, at most [TMP_MAX] of them. *)
Fixpoint mkstemp_inner (tries : nat) (seed : nat) (files : gmap text text)
  : option (text * nat) :=
  match tries with
  | 0 => None
  | S k =>
      match files !! tmpname seed with
      | Some _ => mkstemp_inner k (S seed) files
      | None => Some (tmpname seed, S seed)
      end
  end.

(** [NamedTemporaryFile(mode, encoding=enc, delete=delete)] *)
Definition NamedTemporaryFile (m : mode) (enc : encoding) (delete : bool) : M handle :=
  syscall ;;;
  w <- get_world ;;
  match mkstemp_inner TMP_MAX (tmp_seed w) (fs w) with
  | None => raise FileExistsError
  | Some (p, seed) =>
      modify (fun w => set_tmp_seed seed (set_fs (<[p := []]> (fs w)) w)) ;;;
      alloc (FObj (TemporaryFile p m enc delete) [] 0 false)
  end.

(** ** Object lifetime

    CPython counts references.  A file object that nothing refers to any
    more is finalised on the spot: it is closed as by [close], and a
    failure of that close is reported on stderr and dropped.  [release h]
    is the moment the running method gives up its reference to [h]; the
    object survives when caller-supplied code kept a reference. *)
Definition release (h : handle) : M unit :=
  w <- get_world ;;
  if bool_decide (h ∈ kept w) then ret tt
  else (try (close h) ;;; ret tt).

(** Caller-supplied code storing a reference to the file it was given. *)
Definition keep (h : handle) : M unit :=
  modify (fun w => set_kept (h :: kept w) w).

(** ** class ContentDumper *)

(** The only attribute is the write-strategy [on_dump], stored under the
    private name [__dump_to_file]. *)
Record ContentDumper := { dump_to_file : handle -> M unit }.

(** [self.__dump_to_file(file)] *)
Definition call_dump (self : ContentDumper) (file : handle) : M unit :=
  emit (Dumped file) ;;; dump_to_file self file.

Module ContentDumper.

(** [ContentDumper(on_dump)] for a caller-supplied function. *)
Definition new (on_dump : handle -> World -> result unit * World) : ContentDumper :=
  {| dump_to_file := fun file => lift_user (on_dump file) |}.

(** [def string(self)] *)
Definition string (self : ContentDumper) : M text :=
  file <- StringIO_new ;;
  call_dump self file ;;;
  seek file 0 ;;;
  read file.

(** [def file(self, file=None)] *)
Definition file (self : ContentDumper) (file : option handle) : M handle :=
  file <- match file with
          | None => StringIO_new
          | Some f => ret f
          end ;;
  call_dump self file ;;;
  ret file.

(** [def path(self, path)] *)
Definition path (self : ContentDumper) (path : text) : M unit :=
  file <- open_w path ;;
  with_file file (call_dump self file).

(** [def _temporary_file(self, delete=True)] *)
Definition _temporary_file (self : ContentDumper) (delete : bool) : M handle :=
  file <- NamedTemporaryFile ModeWPlus UTF8 delete ;;
  call_dump self file ;;;
  ret file.

(** [def temporary_path(self)].  The file object is a temporary of the
    [return] expression: once its [name] has been read the method holds no
    reference to it. *)
Definition temporary_path (self : ContentDumper) : M text :=
  file <- _temporary_file self false ;;
  n <- name file ;;
  release file ;;;
  ret n.

(** [def temporary_file(self, delete_when_closed=True)] *)
Definition temporary_file (self : ContentDumper) (delete_when_closed : bool) : M handle :=
  _temporary_file self delete_when_closed.

End ContentDumper.

(** ** Write-strategies that only write

    The strategies [ContentDumper] is documented for: the content is
    written to the file with [file.write], piece by piece. *)

Definition user {A} (m : M A) : World -> result A * World :=
  fun w => (value (m w), after (m w)).

Fixpoint write_all (file : handle) (ws : list text) : M unit :=
  match ws with
  | [] => ret tt
  | s :: ws => write file s ;;; write_all file ws
  end.

Definition writes (ws : list text) : handle -> World -> result unit * World :=
  fun file => user (write_all file ws).

(** ** [json.dump]: the encoder

    The default encoder ([ensure_ascii=True], separators [", "] and
    [": "], no indentation, [skipkeys=False], keys in dictionary order). *)

Definition quote : ascii := "034"%char.
Definition backslash : ascii := "092"%char.

Definition hexdigit (n : nat) : ascii :=
  if n <? 10 then ascii_of_nat (48 + n) else ascii_of_nat (87 + n).

(** What [ESCAPE_ASCII.sub(replace, s)] puts in the place of one character:
    printable ASCII other than the quote and the backslash stays, the rest
    is escaped. *)
Definition escape_char (c : ascii) : text :=
  let n := nat_of_ascii c in
  if n =? 92 then [backslash; backslash]
  else if n =? 34 then [backslash; quote]
  else if (32 <=? n) && (n <=? 126) then [c]
  else if n =? 8 then [backslash; "b"%char]
  else if n =? 12 then [backslash; "f"%char]
  else if n =? 10 then [backslash; "n"%char]
  else if n =? 13 then [backslash; "r"%char]
  else if n =? 9 then [backslash; "t"%char]
  else [backslash; "u"%char; "0"%char; "0"%char; hexdigit (n / 16); hexdigit (n mod 16)].

(** [py_encode_basestring_ascii] *)
Definition encode_basestring_ascii (s : text) : text :=
  quote :: concat (map escape_char s) ++ [quote].

(** What a generator produced: the chunks it yielded and the exception that
    ended it, if one did. *)
Definition chunks : Type := list text * option exn.

Definition yield (s : text) : chunks := ([s], None).
Definition stop : chunks := ([], None).
Definition fail (e : exn) : chunks := ([], Some e).
Definition then_ (a b : chunks) : chunks :=
  match snd a with
  | Some _ => a
  | None => (fst a ++ fst b, snd b)
  end.

(** The values [_iterencode_list] and [_iterencode_dict] encode in place. *)
Definition atom (o : pyobj) : option text :=
  match o with
  | PyStr s => Some (encode_basestring_ascii s)
  | PyNone => Some (str "null")
  | PyBool true => Some (str "true")
  | PyBool false => Some (str "false")
  | PyInt z => Some (intstr z)
  | _ => None
  end.

(** The text a dictionary key is written as, if [json] accepts the key. *)
Definition key_text (k : pykey) : option text :=
  match k with
  | KStr s => Some s
  | KBool true => Some (str "true")
  | KBool false => Some (str "false")
  | KNone => Some (str "null")
  | KInt z => Some (intstr z)
  | KOther _ => None
  end.

(** [_iterencode_list], from the first item on: [first] says whether the
    opening bracket is still to be written. *)
Definition iterencode_list (_iterencode : pyobj -> chunks)
  : bool -> list pyobj -> chunks :=
  fix loop (first : bool) (lst : list pyobj) : chunks :=
    match lst with
    | [] => yield (str "]")
    | v :: lst' =>
        let buf := if first then str "[" else str ", " in
        then_ (match atom v with
               | Some s => yield (buf ++ s)
               | None => then_ (yield buf) (_iterencode v)
               end)
              (loop false lst')
    end.

(** [_iterencode_dict], behind the opening brace. *)
Definition iterencode_dict (_iterencode : pyobj -> chunks)
  : bool -> list (pykey * pyobj) -> chunks :=
  fix loop (first : bool) (items : list (pykey * pyobj)) : chunks :=
    match items with
    | [] => yield (str "}")
    | (k, v) :: items' =>
        match key_text k with
        | None => fail TypeError
        | Some key =>
            then_ (if first then stop else yield (str ", "))
            (then_ (yield (encode_basestring_ascii key))
            (then_ (yield (str ": "))
            (then_ (match atom v with
                    | Some s => yield s
                    | None => _iterencode v
                    end)
                   (loop false items'))))
        end
    end.

(** [_iterencode] *)
Fixpoint iterencode (o : pyobj) : chunks :=
  match o with
  | PyStr _ | PyNone | PyBool _ | PyInt _ =>
      match atom o with Some s => yield s | None => stop end
  | PyList [] | PyTuple [] => yield (str "[]")
  | PyList lst | PyTuple lst => iterencode_list iterencode true lst
  | PyDict [] => yield (str "{}")
  | PyDict dct => then_ (yield (str "{")) (iterencode_dict iterencode true dct)
  | PyOther _ => fail TypeError
  end.

(** [json.dump(obj, fp)]: every chunk is written as soon as it is yielded. *)
Definition json_dump (obj : pyobj) (fp : handle) : M unit :=
  emit (Encoded obj) ;;;
  write_all fp (fst (iterencode obj)) ;;;
  match snd (iterencode obj) with
  | Some e => raise e
  | None => ret tt
  end.

(** [json.dumps(obj)] *)
Definition json_dumps (obj : pyobj) : result text :=
  match snd (iterencode obj) with
  | Some e => Raise e
  | None => Ok (concat (fst (iterencode obj)))
  end.

(** ** [json.loads]: the decoder

    [None] stands for a [JSONDecodeError], and for a document that leaves
    the model: a number with a fraction or an exponent, a [\u] escape of a
    code point above 255. *)

Definition is_ws (c : ascii) : bool :=
  let n := nat_of_ascii c in
  (n =? 32) || (n =? 9) || (n =? 10) || (n =? 13).

(** [WHITESPACE.match(s, end).end()] *)
Fixpoint skip_ws (s : text) : text :=
  match s with
  | c :: r => if is_ws c then skip_ws r else s
  | [] => []
  end.

Definition is_digit (c : ascii) : bool :=
  let n := nat_of_ascii c in (48 <=? n) && (n <=? 57).

Definition hexval (c : ascii) : option nat :=
  let n := nat_of_ascii c in
  if (48 <=? n) && (n <=? 57) then Some (n - 48)
  else if (97 <=? n) && (n <=? 102) then Some (n - 87)
  else if (65 <=? n) && (n <=? 70) then Some (n - 55)
  else None.

(** [_decode_uXXXX] followed by [chr]. *)
Definition decode_uXXXX (h1 h2 h3 h4 : ascii) : option ascii :=
  match hexval h1, hexval h2, hexval h3, hexval h4 with
  | Some a, Some b, Some c, Some d =>
      if (a =? 0) && (b =? 0) then Some (ascii_of_nat (16 * c + d)) else None
  | _, _, _, _ => None
  end.

(** The table [BACKSLASH]. *)
Definition unescape (esc : ascii) : option ascii :=
  let n := nat_of_ascii esc in
  if n =? 34 then Some quote
  else if n =? 92 then Some backslash
  else if n =? 47 then Some "/"%char
  else if n =? 98 then Some (ascii_of_nat 8)
  else if n =? 102 then Some (ascii_of_nat 12)
  else if n =? 110 then Some (ascii_of_nat 10)
  else if n =? 114 then Some (ascii_of_nat 13)
  else if n =? 116 then Some (ascii_of_nat 9)
  else None.

(** [py_scanstring] in strict mode, started behind the opening quote: the
    decoded string and the text behind the closing quote. *)
Fixpoint scanstring (s : text) : option (text * text) :=
  match s with
  | [] => None
  | c :: r =>
      if nat_of_ascii c =? 34 then Some ([], r)
      else if nat_of_ascii c =? 92 then
        match r with
        | [] => None
        | esc :: r1 =>
            if nat_of_ascii esc =? 117 then
              match r1 with
              | h1 :: h2 :: h3 :: h4 :: r2 =>
                  match decode_uXXXX h1 h2 h3 h4, scanstring r2 with
                  | Some ch, Some (t, rest) => Some (ch :: t, rest)
                  | _, _ => None
                  end
              | _ => None
              end
            else
              match unescape esc, scanstring r1 with
              | Some ch, Some (t, rest) => Some (ch :: t, rest)
              | _, _ => None
              end
        end
      else if nat_of_ascii c <? 32 then None
      else
        match scanstring r with
        | Some (t, rest) => Some (c :: t, rest)
        | None => None
        end
  end.

Definition digit_value (c : ascii) (u : Decimal.uint) : Decimal.uint :=
  match nat_of_ascii c - 48 with
  | 0 => Decimal.D0 u | 1 => Decimal.D1 u | 2 => Decimal.D2 u
  | 3 => Decimal.D3 u | 4 => Decimal.D4 u | 5 => Decimal.D5 u
  | 6 => Decimal.D6 u | 7 => Decimal.D7 u | 8 => Decimal.D8 u
  | _ => Decimal.D9 u
  end.

(** The longest run of digits at the start of [s]. *)
Fixpoint scan_digits (s : text) : Decimal.uint * text :=
  match s with
  | c :: r =>
      if is_digit c
      then let '(u, rest) := scan_digits r in (digit_value c u, rest)
      else (Decimal.Nil, s)
  | [] => (Decimal.Nil, [])
  end.

(** The integer part of [NUMBER_RE]: [0], or a digit from 1 to 9 and all
    the digits that follow. *)
Definition scan_integer (s : text) : option (Decimal.uint * text) :=
  match s with
  | c :: r =>
      if nat_of_ascii c =? 48 then Some (Decimal.D0 Decimal.Nil, r)
      else if is_digit c then Some (scan_digits s)
      else None
  | [] => None
  end.

(** Does a fraction [\.\d+] start here? *)
Definition starts_frac (s : text) : bool :=
  match s with
  | c :: d :: _ => (nat_of_ascii c =? 46) && is_digit d
  | _ => false
  end.

(** Does an exponent [[eE][-+]?\d+] start here? *)
Definition starts_exp (s : text) : bool :=
  match s with
  | c :: r =>
      ((nat_of_ascii c =? 101) || (nat_of_ascii c =? 69)) &&
      match r with
      | d :: r' =>
          if (nat_of_ascii d =? 45) || (nat_of_ascii d =? 43)
          then match r' with d' :: _ => is_digit d' | [] => false end
          else is_digit d
      | [] => false
      end
  | [] => false
  end.

(** [match_number] and [int(integer)]. *)
Definition scan_number (s : text) : option (pyobj * text) :=
  let '(negative, s1) :=
    match s with
    | c :: r => if nat_of_ascii c =? 45 then (true, r) else (false, s)
    | [] => (false, s)
    end in
  match scan_integer s1 with
  | None => None
  | Some (u, rest) =>
      if starts_frac rest || starts_exp rest then None
      else Some (PyInt (Z.of_int (if negative then Decimal.Neg u else Decimal.Pos u)), rest)
  end.

Fixpoint strip_prefix (p s : text) : option text :=
  match p, s with
  | [], _ => Some s
  | a :: p', b :: s' => if Ascii.eqb a b then strip_prefix p' s' else None
  | _ :: _, [] => None
  end.

(** Equality of keys as a [dict] sees it: [True] and [1] are the same
    key, and so are [False] and [0]. *)
Definition key_eqb (a b : pykey) : bool :=
  match a, b with
  | KStr s, KStr t => bool_decide (s = t)
  | KInt x, KInt y => (x =? y)%Z
  | KBool x, KBool y => Bool.eqb x y
  | KInt x, KBool y | KBool y, KInt x => (x =? (if y then 1 else 0))%Z
  | KNone, KNone => true
  | KOther x, KOther y => x =? y
  | _, _ => false
  end.

(** [d[key] = value] on a dictionary in insertion order. *)
Fixpoint dict_set (key : pykey) (v : pyobj) (d : list (pykey * pyobj))
  : list (pykey * pyobj) :=
  match d with
  | [] => [(key, v)]
  | (k, v') :: d' =>
      if key_eqb k key then (k, v) :: d' else (k, v') :: dict_set key v d'
  end.

(** [dict(pairs)] *)
Definition dict_of_pairs (pairs : list (text * pyobj)) : list (pykey * pyobj) :=
  fold_left (fun d '(k, v) => dict_set (KStr k) v d) pairs [].

(** [scan_once], [JSONArray] and [JSONObject].  [fuel] bounds the number of
    nested calls; [json_loads] passes more than the parse can use. *)
Fixpoint scan_once (fuel : nat) (s : text) : option (pyobj * text) :=
  match fuel with
  | 0 => None
  | S fuel =>
      match s with
      | [] => None
      | c :: r =>
          if nat_of_ascii c =? 34 then
            match scanstring r with
            | Some (t, rest) => Some (PyStr t, rest)
            | None => None
            end
          else if nat_of_ascii c =? 123 then
            (* JSONObject *)
            let r1 := if negb (nat_of_ascii (hd quote r) =? 34) then skip_ws r else r in
            match r1 with
            | c1 :: r2 =>
                if nat_of_ascii c1 =? 125 then Some (PyDict [], r2)
                else if nat_of_ascii c1 =? 34 then
                  match object_items fuel r2 [] with
                  | Some (pairs, rest) => Some (PyDict (dict_of_pairs pairs), rest)
                  | None => None
                  end
                else None
            | [] => None
            end
          else if nat_of_ascii c =? 91 then
            (* JSONArray *)
            match skip_ws r with
            | c1 :: r2 =>
                if nat_of_ascii c1 =? 93 then Some (PyList [], r2)
                else
                  match array_items fuel (skip_ws r) [] with
                  | Some (values, rest) => Some (PyList values, rest)
                  | None => None
                  end
            | [] => None
            end
          else if nat_of_ascii c =? 110 then
            match strip_prefix (str "null") s with
            | Some rest => Some (PyNone, rest)
            | None => None
            end
          else if nat_of_ascii c =? 116 then
            match strip_prefix (str "true") s with
            | Some rest => Some (PyBool true, rest)
            | None => None
            end
          else if nat_of_ascii c =? 102 then
            match strip_prefix (str "false") s with
            | Some rest => Some (PyBool false, rest)
            | None => None
            end
          else scan_number s
      end
  end

(** The loop of [JSONArray]: [s] starts at the next value, [values] holds
    the values read so far. *)
with array_items (fuel : nat) (s : text) (values : list pyobj)
  : option (list pyobj * text) :=
  match fuel with
  | 0 => None
  | S fuel =>
      match scan_once fuel s with
      | None => None
      | Some (v, rest) =>
          match skip_ws rest with
          | c :: r =>
              if nat_of_ascii c =? 93 then Some (values ++ [v], r)
              else if nat_of_ascii c =? 44 then array_items fuel (skip_ws r) (values ++ [v])
              else None
          | [] => None
          end
      end
  end

(** The loop of [JSONObject]: [s] starts behind the opening quote of the
    next key. *)
with object_items (fuel : nat) (s : text) (pairs : list (text * pyobj))
  : option (list (text * pyobj) * text) :=
  match fuel with
  | 0 => None
  | S fuel =>
      match scanstring s with
      | None => None
      | Some (key, r0) =>
          match skip_ws r0 with
          | c :: r1 =>
              if nat_of_ascii c =? 58 then
                match scan_once fuel (skip_ws r1) with
                | None => None
                | Some (v, rest) =>
                    match skip_ws rest with
                    | c2 :: r2 =>
                        if nat_of_ascii c2 =? 125 then Some (pairs ++ [(key, v)], r2)
                        else if nat_of_ascii c2 =? 44 then
                          match skip_ws r2 with
                          | c3 :: r3 =>
                              if nat_of_ascii c3 =? 34
                              then object_items fuel r3 (pairs ++ [(key, v)])
                              else None
                          | [] => None
                          end
                        else None
                    | [] => None
                    end
                end
              else None
          | [] => None
          end
      end
  end.

(** [json.loads(s)]: leading whitespace, one value, trailing whitespace. *)
Definition json_loads (s : text) : option pyobj :=
  let s1 := skip_ws s in
  match scan_once (S (length s1)) s1 with
  | Some (v, rest) =>
      match skip_ws rest with
      | [] => Some v
      | _ :: _ => None
      end
  | None => None
  end.

(** The values for which the specification states the round trip: what
    [json.loads] can return.  Tuples come back as lists and keys that are
    not strings come back as strings, so they are not among them; the keys
    of a dictionary are distinct. *)
Definition is_str_key (k : pykey) : bool :=
  match k with KStr _ => true | _ => false end.

Fixpoint distinct_keys (ks : list pykey) : bool :=
  match ks with
  | [] => true
  | k :: ks' => negb (existsb (key_eqb k) ks') && distinct_keys ks'
  end.

Fixpoint json_compatible (o : pyobj) : bool :=
  match o with
  | PyNone | PyBool _ | PyInt _ | PyStr _ => true
  | PyList l => forallb json_compatible l
  | PyDict d =>
      forallb (fun '(k, v) => is_str_key k && json_compatible v) d
      && distinct_keys (map fst d)
  | PyTuple _ | PyOther _ => false
  end.

(** The values [json.dump] encodes without raising. *)
Fixpoint json_serializable (o : pyobj) : bool :=
  match o with
  | PyNone | PyBool _ | PyInt _ | PyStr _ => true
  | PyList l | PyTuple l => forallb json_serializable l
  | PyDict d =>
      forallb (fun '(k, v) => match key_text k with Some _ => true | None => false end
                              && json_serializable v) d
  | PyOther _ => false
  end.

(** ** The text of a JSON document

    [json_text o] is the document [json.dumps(o)] returns for a value it can
    encode, written as one recursive function instead of a generator. *)

Definition list_tail (json_text : pyobj -> text) : list pyobj -> text :=
  fix tl (l : list pyobj) : text :=
    match l with
    | [] => str "]"
    | v :: l' => str ", " ++ json_text v ++ tl l'
    end.

Definition dict_item (json_text : pyobj -> text) (k : pykey) (v : pyobj) : text :=
  encode_basestring_ascii (default [] (key_text k)) ++ str ": " ++ json_text v.

Definition dict_tail (json_text : pyobj -> text) : list (pykey * pyobj) -> text :=
  fix tl (d : list (pykey * pyobj)) : text :=
    match d with
    | [] => str "}"
    | (k, v) :: d' => str ", " ++ dict_item json_text k v ++ tl d'
    end.

Fixpoint json_text (o : pyobj) : text :=
  match o with
  | PyNone => str "null"
  | PyBool true => str "true"
  | PyBool false => str "false"
  | PyInt z => intstr z
  | PyStr s => encode_basestring_ascii s
  | PyList [] | PyTuple [] => str "[]"
  | PyList (v :: l) | PyTuple (v :: l) => str "[" ++ json_text v ++ list_tail json_text l
  | PyDict [] => str "{}"
  | PyDict ((k, v) :: d) => str "{" ++ dict_item json_text k v ++ dict_tail json_text d
  | PyOther _ => []
  end.

(** ** class JSONDumper(ContentDumper) *)

(** The attribute [__dump_to_json] is the object-provider: a function of
    no arguments supplied by the caller. *)
Record JSONDumper := { dump_to_json : World -> result pyobj * World }.

Module JSONDumper.

(** [def object(self)] *)
Definition object (self : JSONDumper) : M pyobj :=
  emit Provided ;;; lift_user (dump_to_json self).

(** [def _dump_to_file(self, file)] *)
Definition _dump_to_file (self : JSONDumper) (file : handle) : M unit :=
  o <- object self ;;
  json_dump o file.

(** [super().__init__(self._dump_to_file)]: the [ContentDumper] a
    [JSONDumper] is, whose write-strategy is the bound method. *)
Definition super (self : JSONDumper) : ContentDumper :=
  {| dump_to_file := _dump_to_file self |}.

(** [JSONDumper(on_dump)] *)
Definition new (on_dump : World -> result pyobj * World) : JSONDumper :=
  {| dump_to_json := on_dump |}.

(** The inherited methods. *)
Definition string (self : JSONDumper) := ContentDumper.string (super self).
Definition file (self : JSONDumper) := ContentDumper.file (super self).
Definition path (self : JSONDumper) := ContentDumper.path (super self).
Definition temporary_path (self : JSONDumper) := ContentDumper.temporary_path (super self).
Definition temporary_file (self : JSONDumper) := ContentDumper.temporary_file (super self).

End JSONDumper.

(** ** The materialisation methods as one family *)

Inductive method :=
| string_
| file_ (file : option handle)
| path_ (p : text)
| temporary_path_
| temporary_file_ (delete_when_closed : bool).

Definition void {A} (m : M A) : M unit := m ;;; ret tt.

Definition call (self : ContentDumper) (m : method) : M unit :=
  match m with
  | string_ => void (ContentDumper.string self)
  | file_ f => void (ContentDumper.file self f)
  | path_ p => ContentDumper.path self p
  | temporary_path_ => void (ContentDumper.temporary_path self)
  | temporary_file_ d => void (ContentDumper.temporary_file self d)
  end.

(** How each method gets hold of the file it dumps to. *)
Definition destination (m : method) : M handle :=
  match m with
  | string_ => StringIO_new
  | file_ None => StringIO_new
  | file_ (Some f) => ret f
  | path_ p => open_w p
  | temporary_path_ => NamedTemporaryFile ModeWPlus UTF8 false
  | temporary_file_ d => NamedTemporaryFile ModeWPlus UTF8 d
  end.

(** * Vocabulary of the statements *)

(** The object behind [h] exists and is closed. *)
Definition closed_in (h : handle) (w : World) : Prop :=
  exists f, handles w !! h = Some f /\ f_closed f = true.

(** The file system once an object of origin [o] with content [b] has been
    closed without failure. *)
Definition fs_after_close (o : origin) (b : text) (files : gmap text text) : gmap text text :=
  match on_disk o with
  | Some path => if delete_on_close o then delete path files else <[path := b]> files
  | None => files
  end.

(** The world once the file [p] has been created and the object [f] that
    stands for it has been put on the heap. *)
Definition tmp_world (w : World) (p : text) (seed : nat) (f : fobj) : World :=
  MkWorld (handles w ++ [f]) (<[p := []]> (fs w)) (tail (faults w)) seed (kept w).

(** The world right after [open(p, "w")] succeeded. *)
Definition opened_world (w : World) (p : text) : World :=
  MkWorld (handles w ++ [FObj (OpenedFile p ModeW PlatformDefault) [] 0 false])
          (<[p := []]> (fs w)) (tail (faults w)) (tmp_seed w) (kept w).

(** The world right after the creation of a temporary file. *)
Definition created_world (w : World) (p : text) (seed : nat) (delete : bool) : World :=
  tmp_world w p seed (FObj (TemporaryFile p ModeWPlus UTF8 delete) [] 0 false).

(** A write-strategy that stores the file object it is given, as
    [seen.append(file)] would, and then writes. *)
Definition storing_strategy : handle -> World -> result unit * World :=
  fun file => user (keep file ;;; write file (str "k2tog") ;;; ret tt).

(** A strategy that fails after its first write. *)
Definition failing_strategy : handle -> World -> result unit * World :=
  fun file => user (write file (str "row 1") ;;; raise (UserError 1)).


(** The text does not go on with a digit. *)
Definition no_digit_next (s : text) : bool :=
  match s with
  | c :: _ => negb (is_digit c)
  | [] => true
  end.

(** What may follow a number for it to be read back as it was written. *)
Definition number_end (s : text) : bool :=
  match s with
  | c :: _ =>
      negb (is_digit c) && negb (nat_of_ascii c =? 46)
      && negb (nat_of_ascii c =? 101) && negb (nat_of_ascii c =? 69)
  | [] => true
  end.

(** A numeral without superfluous leading zero. *)
Definition canonical (u : Decimal.uint) : Prop :=
  u = Decimal.D0 Decimal.Nil \/
  match u with Decimal.Nil | Decimal.D0 _ => False | _ => True end.

(** The characters a JSON value written by the encoder can start with. *)
Definition value_start (c : ascii) : bool :=
  let n := nat_of_ascii c in
  (n =? 34) || (n =? 123) || (n =? 91) || (n =? 110) || (n =? 116) || (n =? 102)
  || (n =? 45) || is_digit c.

(** A value is read back when the scanner, given enough fuel, finds it at
    the head of any text that starts with its encoding. *)
Definition reads_back (x : pyobj) : Prop :=
  json_compatible x = true ->
  forall fuel rest,
    length (json_text x) < fuel -> number_end rest = true ->
    scan_once fuel (json_text x ++ rest) = Some (x, rest).

(** One dictionary item behind the opening quote of its key. *)
Definition item_body (key : text) (v : pyobj) : text :=
  concat (map escape_char key) ++ quote :: ":"%char :: " "%char :: json_text v.

(** A dictionary item as the decoder collects it. *)
Definition pair_of (kv : pykey * pyobj) : text * pyobj :=
  (default [] (key_text (fst kv)), snd kv).

(** What [iterencode] does on a value: it ends without exception and its
    chunks make up the document, or it raises [TypeError]. *)
Definition encodes (x : pyobj) : Prop :=
  if json_serializable x
  then snd (iterencode x) = None /\ concat (fst (iterencode x)) = json_text x
  else snd (iterencode x) = Some TypeError.

(** The text the loop of [iterencode_list] produces. *)
Definition loop_text (first : bool) (l : list pyobj) : text :=
  match l with
  | [] => str "]"
  | v :: l' => (if first then str "[" else str ", ") ++ json_text v ++ list_tail json_text l'
  end.

(** The text the loop of [iterencode_dict] produces. *)
Definition dict_loop_text (first : bool) (d : list (pykey * pyobj)) : text :=
  match d with
  | [] => str "}"
  | (k, v) :: d' =>
      (if first then [] else str ", ") ++ dict_item json_text k v ++ dict_tail json_text d'
  end.

(** The test [json_serializable] applies to the items of a dictionary. *)
Definition item_serializable (kv : pykey * pyobj) : bool :=
  match kv with
  | (k, v) => match key_text k with Some _ => true | None => false end
              && json_serializable v
  end.



(** How often the object-provider was called. *)
Definition provider_calls (ev : list event) : nat :=
  length (List.filter (fun e => match e with Provided => true | _ => false end) ev).

(** The objects [json.dump] was called on, in order. *)
Definition encoded_objects (ev : list event) : list pyobj :=
  flat_map (fun e => match e with Encoded o => [o] | _ => [] end) ev.

(** ** More strategies, and values as a JSON document has them *)

(** A strategy that writes its pieces and then fails. *)
Definition writes_then_raise (ws : list text) (e : exn)
  : handle -> World -> result unit * World :=
  fun file => user (write_all file ws ;;; raise e).

(** A strategy that writes and then closes the file it was given. *)
Definition closing_strategy : handle -> World -> result unit * World :=
  fun file => user (write file (str "p1") ;;; close file).

(** The printable ASCII characters, the ones [ensure_ascii] lets through. *)
Definition printable (c : ascii) : Prop := 32 <= nat_of_ascii c <= 126.



(** ** Induction over Python values *)

Section pyobj_induction.
Variable P : pyobj -> Prop.
Hypothesis HNone : P PyNone.
Hypothesis HBool : forall b, P (PyBool b).
Hypothesis HInt : forall z, P (PyInt z).
Hypothesis HStr : forall s, P (PyStr s).
Hypothesis HList : forall l, Forall P l -> P (PyList l).
Hypothesis HTuple : forall l, Forall P l -> P (PyTuple l).
Hypothesis HDict : forall d, Forall (fun kv => P (snd kv)) d -> P (PyDict d).
Hypothesis HOther : forall id, P (PyOther id).

Fixpoint pyobj_ind (o : pyobj) : P o :=
  match o with
  | PyNone => HNone
  | PyBool b => HBool b
  | PyInt z => HInt z
  | PyStr s => HStr s
  | PyList l =>
      HList l ((fix all (l : list pyobj) : Forall P l :=
                  match l with
                  | [] => List.Forall_nil P
                  | x :: l' => List.Forall_cons P x l' (pyobj_ind x) (all l')
                  end) l)
  | PyTuple l =>
      HTuple l ((fix all (l : list pyobj) : Forall P l :=
                   match l with
                   | [] => List.Forall_nil P
                   | x :: l' => List.Forall_cons P x l' (pyobj_ind x) (all l')
                   end) l)
  | PyDict d =>
      HDict d ((fix all (d : list (pykey * pyobj)) : Forall (fun kv => P (snd kv)) d :=
                  match d with
                  | [] => List.Forall_nil _
                  | kv :: d' => List.Forall_cons _ kv d' (pyobj_ind (snd kv)) (all d')
                  end) d)
  | PyOther id => HOther id
  end.
End pyobj_induction.

(** * Properties *)

(** ** The monad *)

Lemma outcome_eta {A} (o : outcome A) : o = Outcome (value o) (after o) (events o).
Proof. by destruct o. Qed.

Lemma bind_ok {A B} (m : M A) (k : A -> M B) w a w1 ev :
  m w = Outcome (Ok a) w1 ev ->
  bind m k w = Outcome (value (k a w1)) (after (k a w1)) (ev ++ events (k a w1)).
Proof. intros H. unfold bind. by rewrite H. Qed.

Lemma bind_raise {A B} (m : M A) (k : A -> M B) w e w1 ev :
  m w = Outcome (Raise e) w1 ev ->
  bind m k w = Outcome (Raise e) w1 ev.
Proof. intros H. unfold bind. by rewrite H. Qed.

Lemma bind_silent {A B} (m : M A) (k : A -> M B) w a w1 :
  m w = Outcome (Ok a) w1 [] -> bind m k w = k a w1.
Proof. intros H. rewrite (bind_ok _ _ _ _ _ _ H). simpl. by destruct (k a w1). Qed.

Lemma lift_user_user {A} (m : M A) w :
  lift_user (user m) w = Outcome (value (m w)) (after (m w)) [].
Proof. reflexivity. Qed.

(** Value, final world and events of a sequence, one by one. *)
Lemma value_bind {A B} (m : M A) (k : A -> M B) w :
  value (bind m k w) =
  match value (m w) with
  | Ok a => value (k a (after (m w)))
  | Raise e => Raise e
  end.
Proof. unfold bind. by destruct (value (m w)). Qed.

Lemma after_bind {A B} (m : M A) (k : A -> M B) w :
  after (bind m k w) =
  match value (m w) with
  | Ok a => after (k a (after (m w)))
  | Raise e => after (m w)
  end.
Proof. unfold bind. by destruct (value (m w)). Qed.

Lemma events_bind {A B} (m : M A) (k : A -> M B) w :
  events (bind m k w) =
  events (m w) ++
  match value (m w) with
  | Ok a => events (k a (after (m w)))
  | Raise e => []
  end.
Proof. unfold bind. destruct (value (m w)); simpl; by rewrite ?app_nil_r. Qed.

(** ** Computations that emit no event *)

Definition silent {A} (m : M A) : Prop := forall w, events (m w) = [].

Lemma silent_ret {A} (a : A) : silent (ret a).
Proof. done. Qed.

Lemma silent_raise {A} e : silent (@raise A e).
Proof. done. Qed.

Lemma silent_bind {A B} (m : M A) (k : A -> M B) :
  silent m -> (forall a, silent (k a)) -> silent (bind m k).
Proof.
  intros Hm Hk w. rewrite events_bind, Hm. simpl.
  destruct (value (m w)); [apply Hk | done].
Qed.

Lemma silent_try {A} (m : M A) : silent m -> silent (try m).
Proof. intros Hm w. apply Hm. Qed.

Lemma silent_of_result {A} (r : result A) : silent (of_result r).
Proof. by destruct r. Qed.

Lemma silent_modify f : silent (modify f).
Proof. done. Qed.

Lemma silent_get_world : silent get_world.
Proof. done. Qed.

Lemma silent_lift_user {A} (f : World -> result A * World) : silent (lift_user f).
Proof. intros w. unfold lift_user. by destruct (f w). Qed.

Lemma silent_get_file h : silent (get_file h).
Proof. intros w. unfold get_file. by destruct (handles w !! h). Qed.

Lemma silent_put_file h f : silent (put_file h f).
Proof. done. Qed.

Lemma silent_alloc f : silent (alloc f).
Proof. done. Qed.

Lemma silent_syscall : silent syscall.
Proof. intros w. unfold syscall. by destruct (faults w) as [|[e|] t]. Qed.

Create HintDb silent.

#[local] Hint Resolve silent_ret silent_raise silent_try silent_of_result
  silent_modify silent_get_world silent_lift_user silent_get_file
  silent_put_file silent_alloc silent_syscall : silent.

Ltac silence :=
  repeat first
    [ progress auto with silent
    | apply silent_bind; [|intros ?]
    | match goal with
      | |- silent (if ?b then _ else _) => destruct b
      | |- silent (match ?x with _ => _ end) => destruct x
      end ].

Lemma silent_write h s : silent (write h s).
Proof. unfold write. silence. Qed.

Lemma silent_seek h p : silent (seek h p).
Proof. unfold seek. silence. Qed.

Lemma silent_read h : silent (read h).
Proof. unfold read. silence. Qed.

Lemma silent_name h : silent (name h).
Proof. unfold name. silence. Qed.

Lemma silent_flush h : silent (flush h).
Proof. unfold flush. silence. Qed.

#[local] Hint Resolve silent_write silent_seek silent_read silent_name silent_flush : silent.

Lemma silent_close h : silent (close h).
Proof. unfold close. silence. Qed.

#[local] Hint Resolve silent_close : silent.

Lemma silent_release h : silent (release h).
Proof. unfold release. silence. Qed.

Lemma silent_open_w p : silent (open_w p).
Proof. unfold open_w. silence. Qed.

Lemma silent_NamedTemporaryFile m enc d : silent (NamedTemporaryFile m enc d).
Proof. unfold NamedTemporaryFile. silence. Qed.

Lemma silent_StringIO_new : silent StringIO_new.
Proof. unfold StringIO_new. silence. Qed.

Lemma silent_write_all h ws : silent (write_all h ws).
Proof. induction ws; simpl; silence. Qed.

#[local] Hint Resolve silent_release silent_open_w silent_NamedTemporaryFile
  silent_StringIO_new silent_write_all : silent.

Lemma silent_destination m : silent (destination m).
Proof. destruct m as [|[f|]| | |]; simpl; silence. Qed.

(** ** Setters *)

Lemma set_handles_id w : set_handles (handles w) w = w.
Proof. by destruct w. Qed.

Lemma set_handles_twice hs hs' w : set_handles hs (set_handles hs' w) = set_handles hs w.
Proof. reflexivity. Qed.

(** ** Writing *)

Lemma write_at_nil_0 (s : text) : write_at [] 0 s = s.
Proof. destruct s as [|c s]; [done|]. unfold write_at. simpl. by rewrite app_nil_r. Qed.

Lemma write_at_length b p s :
  s <> [] -> length (write_at b p s) = Nat.max (length b) (p + length s).
Proof.
  destruct s as [|c s]; [done|]. intros _. unfold write_at.
  rewrite !length_app, length_take, length_replicate, length_drop. lia.
Qed.

Lemma write_at_nonempty b p s :
  s <> [] ->
  write_at b p s = take p b ++ replicate (p - length b) NUL ++ s ++ drop (p + length s) b.
Proof. by destruct s. Qed.

Lemma write_at_app b p s1 s2 :
  write_at (write_at b p s1) (p + length s1) s2 = write_at b p (s1 ++ s2).
Proof.
  destruct (decide (s2 = [])) as [->|H2]; [by rewrite app_nil_r|].
  destruct (decide (s1 = [])) as [->|H1]; [simpl; by rewrite Nat.add_0_r|].
  assert (H12 : s1 ++ s2 <> []) by (by destruct s1).
  rewrite (write_at_nonempty _ _ s2 H2), (write_at_nonempty _ _ (s1 ++ s2) H12).
  rewrite (write_at_nonempty b p s1 H1).
  set (pre := take p b ++ replicate (p - length b) NUL).
  assert (Hpre : length pre = p).
  { unfold pre. rewrite length_app, length_take, length_replicate. lia. }
  rewrite !(app_assoc (take p b) (replicate _ _)). fold pre.
  rewrite (app_assoc pre s1).
  rewrite take_app_length' by (rewrite length_app; lia).
  replace (p + length s1 - length ((pre ++ s1) ++ drop (p + length s1) b)) with 0
    by (rewrite !length_app; lia).
  simpl replicate.
  rewrite drop_app_ge by (rewrite length_app; lia).
  rewrite drop_drop, !length_app.
  replace (p + length s1 + (p + length s1 + length s2 - (length pre + length s1)))
    with (p + (length s1 + length s2)) by lia.
  by rewrite <- !app_assoc.
Qed.
Lemma syscall_calm w : faults w = [] -> syscall w = Outcome (Ok tt) w [].
Proof. intros H. unfold syscall. by rewrite H. Qed.

Lemma write_spec h s w o b p :
  on_disk o = None \/ faults w = [] ->
  handles w !! h = Some (FObj o b p false) ->
  write h s w =
  Outcome (Ok (length s))
    (set_handles (<[h := FObj o (write_at b p s) (p + length s) false]> (handles w)) w) [].
Proof.
  intros Hf Hh. unfold write, bind, get_file. rewrite Hh. simpl.
  destruct s as [|c s], (on_disk o) as [path|]; simpl; try reflexivity.
  destruct Hf as [Hf|Hf]; [done|]. rewrite (syscall_calm _ Hf). reflexivity.
Qed.

Lemma write_all_spec h ws : forall w o b p,
  on_disk o = None \/ faults w = [] ->
  handles w !! h = Some (FObj o b p false) ->
  write_all h ws w =
  Outcome (Ok tt)
    (set_handles (<[h := FObj o (write_at b p (concat ws)) (p + length (concat ws)) false]>
                    (handles w)) w) [].
Proof.
  induction ws as [|s ws IH]; intros w o b p Hf Hh; simpl.
  - unfold ret. rewrite Nat.add_0_r, list_insert_id by done. by rewrite set_handles_id.
  - rewrite (bind_silent _ _ _ _ _ (write_spec _ s _ _ _ _ Hf Hh)).
    erewrite IH; [|done|].
    2:{ simpl. apply list_lookup_insert_eq. by eapply lookup_lt_Some. }
    simpl. rewrite list_insert_insert_eq, write_at_app, length_app, Nat.add_assoc.
    reflexivity.
Qed.

Lemma lookup_alloc (hs : list fobj) f : (hs ++ [f]) !! length hs = Some f.
Proof. by rewrite lookup_app_r, Nat.sub_diag by lia. Qed.

Lemma write_at_here b p s : take (length s) (drop p (write_at b p s)) = s.
Proof.
  destruct (decide (s = [])) as [->|Hs]; [done|].
  rewrite write_at_nonempty by done.
  rewrite app_assoc, drop_app_length'.
  - by rewrite take_app_length.
  - rewrite length_app, length_take, length_replicate. lia.
Qed.

(** ** Closing *)

Ltac run :=
  repeat (progress (unfold bind, try, ret, raise, modify, get_world, put_file,
                    alloc, of_result, emit, lift_user; simpl)).

Lemma get_file_spec h w f : handles w !! h = Some f -> get_file h w = Outcome (Ok f) w [].
Proof. intros H. unfold get_file. by rewrite H. Qed.

Lemma flush_spec h w o b p :
  handles w !! h = Some (FObj o b p false) ->
  faults w = [] ->
  flush h w =
  Outcome (Ok tt)
    (match on_disk o with Some path => set_fs (<[path := b]> (fs w)) w | None => w end) [].
Proof.
  intros Hh Hf. unfold flush.
  rewrite (bind_silent _ _ _ _ _ (get_file_spec _ _ _ Hh)). simpl.
  destruct (on_disk o); [|done].
  by rewrite (bind_silent _ _ _ _ _ (syscall_calm _ Hf)).
Qed.

Lemma flush_fault h w o b p path e t :
  handles w !! h = Some (FObj o b p false) ->
  on_disk o = Some path ->
  faults w = Some e :: t ->
  flush h w = Outcome (Raise e) (set_faults t w) [].
Proof.
  intros Hh Ho Hf. unfold flush.
  rewrite (bind_silent _ _ _ _ _ (get_file_spec _ _ _ Hh)). simpl. rewrite Ho.
  unfold bind, syscall. by rewrite Hf.
Qed.

Lemma close_spec h w o b p :
  handles w !! h = Some (FObj o b p false) ->
  faults w = [] ->
  close h w =
  Outcome (Ok tt)
    (set_fs (fs_after_close o b (fs w))
       (set_handles (<[h := FObj o b p true]> (handles w)) w)) [].
Proof.
  intros Hh Hf. unfold close.
  rewrite (bind_silent _ _ _ _ _ (get_file_spec _ _ _ Hh)). simpl.
  unfold bind at 1, try. rewrite (flush_spec _ _ _ _ _ Hh Hf). simpl.
  unfold fs_after_close.
  destruct (on_disk o) as [path|] eqn:Ho; run.
  - destruct (delete_on_close o); run; [|reflexivity].
    unfold set_fs, set_handles. simpl. by rewrite delete_insert_eq.
  - destruct w; reflexivity.
Qed.

Lemma close_fault h w o b p path e t :
  handles w !! h = Some (FObj o b p false) ->
  on_disk o = Some path ->
  faults w = Some e :: t ->
  close h w =
  Outcome (Raise e)
    (set_fs (if delete_on_close o then delete path (fs w) else fs w)
       (set_faults t (set_handles (<[h := FObj o b p true]> (handles w)) w))) [].
Proof.
  intros Hh Ho Hf. unfold close.
  rewrite (bind_silent _ _ _ _ _ (get_file_spec _ _ _ Hh)). simpl.
  unfold bind at 1, try. rewrite (flush_fault _ _ _ _ _ _ _ _ Hh Ho Hf). simpl.
  rewrite Ho. run.
  destruct (delete_on_close o); run; [reflexivity|].
  destruct w; reflexivity.
Qed.

Lemma close_closed h w f :
  handles w !! h = Some f -> f_closed f = true ->
  close h w = Outcome (Ok tt) w [].
Proof.
  intros Hh Hc. unfold close.
  rewrite (bind_silent _ _ _ _ _ (get_file_spec _ _ _ Hh)). by rewrite Hc.
Qed.

Lemma flush_handles h w : handles (after (flush h w)) = handles w.
Proof.
  unfold flush, bind, get_file. destruct (handles w !! h) as [f|]; [|done]. simpl.
  destruct (f_closed f); [done|].
  destruct (on_disk (f_origin f)); [|done].
  unfold bind, syscall. by destruct (faults w) as [|[e|] t].
Qed.

(** However a close ends, the object is closed afterwards. *)
Lemma close_closes h w :
  h < length (handles w) -> closed_in h (after (close h w)).
Proof.
  intros Hlt. destruct (lookup_lt_is_Some_2 _ _ Hlt) as [[o b p c] Hh].
  destruct c.
  - rewrite (close_closed _ _ _ Hh eq_refl). by eexists.
  - unfold close.
    rewrite (bind_silent _ _ _ _ _ (get_file_spec _ _ _ Hh)). simpl.
    exists (FObj o b p true). split; [|done].
    pose proof (flush_handles h w) as Hfl.
    unfold bind at 1, try. simpl.
    destruct (on_disk o), (delete_on_close o), (value (flush h w)); run;
      rewrite Hfl; apply list_lookup_insert_eq; done.
Qed.

(** ** Temporary files *)

#[local] Arguments mkstemp_inner : simpl never.

Lemma mkstemp_inner_fresh n : forall seed files p seed',
  mkstemp_inner n seed files = Some (p, seed') -> files !! p = None.
Proof.
  induction n as [|n IH]; intros seed files p seed'; unfold mkstemp_inner;
    fold mkstemp_inner; [done|].
  destruct (files !! tmpname seed) eqn:E; [apply IH|].
  intros [= <- _]. exact E.
Qed.

Lemma syscall_ok w : value (syscall w) = Ok tt -> syscall w = Outcome (Ok tt) (set_faults (tail (faults w)) w) [].
Proof.
  unfold syscall. destruct w as [hs files fl sd kp]; simpl.
  by destruct fl as [|[e|] t].
Qed.

Lemma NamedTemporaryFile_inv m enc d w h :
  value (NamedTemporaryFile m enc d w) = Ok h ->
  exists p seed,
    fs w !! p = None /\ h = length (handles w) /\
    NamedTemporaryFile m enc d w =
    Outcome (Ok h) (tmp_world w p seed (FObj (TemporaryFile p m enc d) [] 0 false)) [].
Proof.
  intros H. unfold NamedTemporaryFile in *. rewrite value_bind in H.
  destruct (value (syscall w)) as [[]|e] eqn:Hs; [|done].
  rewrite (bind_silent _ _ _ _ _ (syscall_ok _ Hs)).
  rewrite (syscall_ok _ Hs) in H. simpl in H.
  unfold bind at 1, get_world in H. unfold bind at 1, get_world. simpl in *.
  destruct (mkstemp_inner TMP_MAX (tmp_seed w) (fs w)) as [[p seed]|] eqn:Hm; [|done].
  revert H. run. intros [= <-]. exists p, seed.
  split; [by eapply mkstemp_inner_fresh|]. done.
Qed.

(** ** Write-only strategies *)

Lemma call_dump_writes ws file w :
  call_dump (ContentDumper.new (writes ws)) file w =
  Outcome (value (write_all file ws w)) (after (write_all file ws w)) [Dumped file].
Proof. reflexivity. Qed.

Lemma call_dump_writes_spec ws file w o b p :
  on_disk o = None \/ faults w = [] ->
  handles w !! file = Some (FObj o b p false) ->
  call_dump (ContentDumper.new (writes ws)) file w =
  Outcome (Ok tt)
    (set_handles (<[file := FObj o (write_at b p (concat ws)) (p + length (concat ws)) false]>
                    (handles w)) w) [Dumped file].
Proof.
  intros Hf Hh. rewrite call_dump_writes. by rewrite (write_all_spec _ _ _ _ _ _ Hf Hh).
Qed.

(** * ContentDumper *)

Lemma string_run (self : ContentDumper) (w w' : World) (b : text) (p : nat) ev :
  let file := length (handles w) in
  dump_to_file self file (after (StringIO_new w)) = Outcome (Ok tt) w' ev ->
  handles w' !! file = Some (FObj StringIO b p false) ->
  ContentDumper.string self w =
  Outcome (Ok b)
    (set_handles (<[file := FObj StringIO b (length b) false]> (handles w')) w')
    (Dumped file :: ev).
Proof.
  intros file Hd Hf.
  unfold ContentDumper.string, call_dump, bind. simpl.
  fold file. simpl in Hd. rewrite Hd. simpl.
  unfold seek, read, bind, get_file. simpl. rewrite Hf. simpl.
  rewrite list_lookup_insert_eq by (by eapply lookup_lt_Some). simpl.
  by rewrite list_insert_insert_eq, app_nil_r.
Qed.

(** C1.  [string()] creates an empty [StringIO], calls the write-strategy on
    it once, and returns the whole content of the buffer as the strategy
    left it, wherever the strategy left the position. *)
Theorem string_returns_what_was_written
    (on_dump : handle -> World -> result unit * World) (w w' : World) (b : text) (p : nat) :
  let file := length (handles w) in
  on_dump file (after (StringIO_new w)) = (Ok tt, w') ->
  handles w' !! file = Some (FObj StringIO b p false) ->
  let o := ContentDumper.string (ContentDumper.new on_dump) w in
  value (StringIO_new w) = Ok file /\
  handles (after (StringIO_new w)) !! file = Some (FObj StringIO [] 0 false) /\
  events o = [Dumped file] /\
  value o = Ok b /\
  after o = set_handles (<[file := FObj StringIO b (length b) false]> (handles w')) w'.
Proof.
  intros file Hd Hf o. subst o.
  split; [reflexivity|]. split; [apply lookup_alloc|].
  erewrite string_run; [done| |exact Hf].
  unfold ContentDumper.new, lift_user. cbn [dump_to_file]. fold file. by rewrite Hd.
Qed.

Lemma string_returns_what_was_written_witness :
  value (ContentDumper.string (ContentDumper.new (writes [str "knit "; str "purl"])) empty_world)
  = Ok (str "knit purl").
Proof.
  eapply (string_returns_what_was_written (writes [str "knit "; str "purl"]) empty_world);
    reflexivity.
Defined.

(** The text a write-only strategy produces, in every world. *)
Lemma string_of_writes ws w :
  value (ContentDumper.string (ContentDumper.new (writes ws)) w) = Ok (concat ws).
Proof.
  set (w1 := after (StringIO_new w)).
  pose proof (write_all_spec (length (handles w)) ws w1 StringIO [] 0
                (or_introl eq_refl) (lookup_alloc _ _)) as Hw.
  rewrite write_at_nil_0 in Hw.
  erewrite string_run; [done| |].
  - unfold ContentDumper.new, lift_user, writes, user. cbn [dump_to_file].
    fold w1. rewrite Hw. reflexivity.
  - simpl. apply list_lookup_insert_eq. rewrite length_app. simpl. lia.
Qed.

(** C8.  Started in the same world, [file(None)] and [string()] run the
    write-strategy on a fresh [StringIO]; the content of the buffer
    [file(None)] returns is the text [string()] returns. *)
Theorem file_None_content_is_string
    (self : ContentDumper) (w w' : World) (b : text) (p : nat) ev :
  let file := length (handles w) in
  dump_to_file self file (after (StringIO_new w)) = Outcome (Ok tt) w' ev ->
  handles w' !! file = Some (FObj StringIO b p false) ->
  let o := ContentDumper.file self None w in
  value o = Ok file /\
  handles (after o) !! file = Some (FObj StringIO b p false) /\
  value (ContentDumper.string self w) = Ok b.
Proof.
  intros file Hd Hf o. subst o.
  rewrite (string_run self w w' b p ev Hd Hf).
  unfold ContentDumper.file, call_dump, bind. simpl. fold file.
  simpl in Hd. rewrite Hd. simpl. auto.
Qed.

Lemma file_None_content_is_string_witness :
  let self := ContentDumper.new (writes [str "k2"; str "p2"]) in
  f_buf <$> handles (after (ContentDumper.file self None empty_world)) !! 0 = Some (str "k2p2") /\
  value (ContentDumper.string self empty_world) = Ok (str "k2p2").
Proof.
  intros self.
  destruct (file_None_content_is_string self empty_world
              (after (dump_to_file self 0 (after (StringIO_new empty_world))))
              (str "k2p2") 4 [] eq_refl eq_refl) as (_ & H1 & H2).
  split; [exact (f_equal (fmap f_buf) H1) | exact H2].
Defined.

(** C7.  [file(s)] for a stream [s] of the caller: the call returns [s]
    itself and leaves the world exactly as the write-strategy left it, so
    the method itself neither closes [s] nor moves its position.  For a
    write-only strategy and an open stream, only [s] changes: the content
    is written at the position of [s], [s] stays open and its position is
    directly behind what was written. *)
Theorem file_writes_into_given_stream
    (self : ContentDumper) (s : handle) (w : World) (org : origin) (b : text) (p : nat) :
  handles w !! s = Some (FObj org b p false) ->
  on_disk org = None \/ faults w = [] ->
  let o := ContentDumper.file self (Some s) w in
  let d := dump_to_file self s w in
  (value o = match value d with Ok _ => Ok s | Raise e => Raise e end /\
   after o = after d /\
   events o = Dumped s :: events d) /\
  forall ws, self = ContentDumper.new (writes ws) ->
    let c := concat ws in
    value o = Ok s /\
    after o = set_handles (<[s := FObj org (write_at b p c) (p + length c) false]> (handles w)) w /\
    take (length c) (drop p (write_at b p c)) = c.
Proof.
  intros Hs Hf o d. subst o d. split.
  - unfold ContentDumper.file, call_dump, bind. simpl.
    destruct (dump_to_file self s w) as [[[]|e] w1 ev]; simpl; by rewrite ?app_nil_r.
  - intros ws -> c.
    unfold ContentDumper.file. rewrite (bind_silent _ _ _ _ _ eq_refl).
    unfold bind. rewrite (call_dump_writes_spec ws s w org b p Hf Hs). simpl.
    split; [done|]. split; [done|]. apply write_at_here.
Qed.

Lemma file_writes_into_given_stream_witness :
  let w := set_handles [FObj StringIO (str "co:") 3 false] empty_world in
  let o := ContentDumper.file (ContentDumper.new (writes [str "k1"])) (Some 0) w in
  value o = Ok 0 /\
  handles (after o) = [FObj StringIO (str "co:k1") 5 false].
Proof.
  intros w o.
  destruct (file_writes_into_given_stream (ContentDumper.new (writes [str "k1"])) 0 w
              StringIO (str "co:") 3 eq_refl (or_introl eq_refl)) as [_ H].
  destruct (H [str "k1"] eq_refl) as (H1 & H2 & _).
  split; [exact H1 | exact (f_equal handles H2)].
Defined.

(** ** [path] *)

Lemma with_file_outcome {A} (file : handle) (body : M A) (w : World) :
  with_file file body w =
  Outcome (match value (close file (after (body w))) with
           | Raise e => Raise e
           | Ok _ => value (body w)
           end)
          (after (close file (after (body w)))) (events (body w)).
Proof.
  unfold with_file, bind, try. simpl.
  pose proof (silent_close file (after (body w))) as Hc.
  destruct (value (close file (after (body w)))) as [[]|e2]; simpl; rewrite Hc, ?app_nil_r;
    [destruct (value (body w))|]; simpl; by rewrite ?app_nil_r.
Qed.

Lemma open_w_ok p w file :
  value (open_w p w) = Ok file ->
  file = length (handles w) /\
  open_w p w = Outcome (Ok file) (opened_world w p) [].
Proof.
  intros H. unfold open_w in *. rewrite value_bind in H.
  destruct (value (syscall w)) as [[]|e] eqn:Hs; [|done].
  rewrite (bind_silent _ _ _ _ _ (syscall_ok _ Hs)).
  rewrite (syscall_ok _ Hs) in H. revert H. run. by intros [= <-].
Qed.

Lemma open_w_raise p w e :
  value (open_w p w) = Raise e -> open_w p w = Outcome (Raise e) (after (syscall w)) [].
Proof.
  intros H. unfold open_w in *. rewrite value_bind in H.
  destruct (value (syscall w)) as [[]|e'] eqn:Hs.
  - rewrite (syscall_ok _ Hs) in H. revert H. by run.
  - injection H as ->. unfold bind. rewrite Hs.
    by rewrite (silent_syscall w).
Qed.

Lemma path_after_open (self : ContentDumper) p w file :
  value (open_w p w) = Ok file ->
  ContentDumper.path self p w =
  with_file file (call_dump self file) (opened_world w p).
Proof.
  intros H. destruct (open_w_ok _ _ _ H) as [_ Ho].
  unfold ContentDumper.path. by rewrite (bind_silent _ _ _ _ _ Ho).
Qed.

Lemma path_of_writes ws p w :
  faults w = [] ->
  ContentDumper.path (ContentDumper.new (writes ws)) p w =
  Outcome (Ok tt)
    (MkWorld (handles w ++ [FObj (OpenedFile p ModeW PlatformDefault)
                                 (concat ws) (length (concat ws)) true])
             (<[p := concat ws]> (fs w)) [] (tmp_seed w) (kept w))
    [Dumped (length (handles w))].
Proof.
  intros Hf.
  assert (Ho : value (open_w p w) = Ok (length (handles w))).
  { unfold open_w. by rewrite (bind_silent _ _ _ _ _ (syscall_calm _ Hf)). }
  rewrite (path_after_open _ _ _ _ Ho), with_file_outcome.
  erewrite call_dump_writes_spec;
    [|right; simpl; by rewrite Hf|simpl; apply lookup_alloc].
  simpl. erewrite close_spec; [| |simpl; by rewrite Hf].
  2:{ simpl. apply list_lookup_insert_eq. rewrite length_app. simpl. lia. }
  simpl. unfold set_fs, set_handles, fs_after_close. simpl.
  rewrite Hf, write_at_nil_0, insert_insert_eq, list_insert_insert_eq.
  rewrite insert_app_r_alt, Nat.sub_diag by lia. done.
Qed.

(** C3.  [path(p)] opens the file for writing, which creates or truncates
    it, runs the write-strategy and closes the file whatever the strategy
    did.  A failure to open is raised as it is, without the strategy being
    called; a failure of the close is raised as it is; otherwise the call
    ends the way the strategy ended.  For a write-only strategy and an
    operating system that reports no failure the file then holds the
    text [string()] returns. *)
Theorem path_closes_and_propagates (self : ContentDumper) (p : text) (w : World) :
  let o := ContentDumper.path self p w in
  let op := open_w p w in
  (forall e, value op = Raise e -> value o = Raise e /\ events o = []) /\
  (forall file, value op = Ok file ->
     let d := call_dump self file (after op) in
     let c := close file (after d) in
     fs (after op) !! p = Some [] /\
     events o = events d /\
     after o = after c /\
     (file < length (handles (after d)) -> closed_in file (after o)) /\
     value o = match value c with Raise e => Raise e | Ok _ => value d end) /\
  (forall ws, self = ContentDumper.new (writes ws) -> faults w = [] ->
     value o = Ok tt /\
     closed_in (length (handles w)) (after o) /\
     fs (after o) !! p = Some (concat ws) /\
     forall w', value (ContentDumper.string self w') = Ok (concat ws)).
Proof.
  intros o op. subst o op. split; [|split].
  - intros e H. unfold ContentDumper.path.
    by rewrite (bind_raise _ _ _ _ _ _ (open_w_raise _ _ _ H)).
  - intros file H d c.
    destruct (open_w_ok _ _ _ H) as [_ Ho]. subst d c. rewrite Ho.
    rewrite (path_after_open _ _ _ _ H), with_file_outcome. simpl.
    split; [apply lookup_insert_eq|]. split; [done|]. split; [done|].
    split; [apply close_closes | done].
  - intros ws -> Hf. rewrite (path_of_writes _ _ _ Hf). simpl.
    split; [done|]. split; [|split].
    + eexists. split; [apply lookup_alloc|done].
    + apply lookup_insert_eq.
    + intros w'. apply string_of_writes.
Qed.

Lemma path_closes_and_propagates_witness :
  let self := ContentDumper.new (writes [str "row 1"; str "row 2"]) in
  let o := ContentDumper.path self (str "/tmp/pattern.txt") empty_world in
  value o = Ok tt /\ fs (after o) !! str "/tmp/pattern.txt" = Some (str "row 1row 2").
Proof.
  intros self o.
  destruct (path_closes_and_propagates self (str "/tmp/pattern.txt") empty_world)
    as (_ & _ & H).
  destruct (H [str "row 1"; str "row 2"] eq_refl eq_refl) as (H1 & _ & H2 & _).
  split; [exact H1 | exact H2].
Defined.

(** ** Temporary files *)

Lemma release_unreferenced h w :
  h ∉ kept w -> release h w = Outcome (Ok tt) (after (close h w)) [].
Proof.
  intros Hk. unfold release, bind, get_world. simpl.
  rewrite bool_decide_eq_false_2 by done.
  unfold try. simpl. by rewrite (silent_close h w).
Qed.

Lemma release_kept h w :
  h ∈ kept w -> release h w = Outcome (Ok tt) w [].
Proof.
  intros Hk. unfold release, bind, get_world. simpl.
  by rewrite bool_decide_eq_true_2.
Qed.

Lemma name_spec h w f p :
  handles w !! h = Some f -> on_disk (f_origin f) = Some p ->
  name h w = Outcome (Ok p) w [].
Proof.
  intros Hh Ho. unfold name.
  rewrite (bind_silent _ _ _ _ _ (get_file_spec _ _ _ Hh)). by rewrite Ho.
Qed.

(** What [_temporary_file] does before it calls the write-strategy. *)
Lemma _temporary_file_created (self : ContentDumper) delete w file :
  value (NamedTemporaryFile ModeWPlus UTF8 delete w) = Ok file ->
  exists p seed,
    fs w !! p = None /\ file = length (handles w) /\
    NamedTemporaryFile ModeWPlus UTF8 delete w =
      Outcome (Ok file) (created_world w p seed delete) [] /\
    ContentDumper._temporary_file self delete w =
    Outcome (match value (call_dump self file (created_world w p seed delete)) with
             | Ok _ => Ok file
             | Raise e => Raise e
             end)
            (after (call_dump self file (created_world w p seed delete)))
            (events (call_dump self file (created_world w p seed delete))).
Proof.
  intros H. destruct (NamedTemporaryFile_inv _ _ _ _ _ H) as (p & seed & Hp & -> & Hn).
  exists p, seed. split; [done|]. split; [done|]. split; [done|].
  unfold ContentDumper._temporary_file. rewrite (bind_silent _ _ _ _ _ Hn).
  fold (created_world w p seed delete).
  unfold bind at 1.
  destruct (call_dump self (length (handles w)) (created_world w p seed delete))
    as [[[]|e] w2 ev]; simpl; by rewrite ?app_nil_r.
Qed.

Lemma _temporary_file_of_writes ws delete w file :
  faults w = [] ->
  value (NamedTemporaryFile ModeWPlus UTF8 delete w) = Ok file ->
  exists p seed,
    fs w !! p = None /\ file = length (handles w) /\
    ContentDumper._temporary_file (ContentDumper.new (writes ws)) delete w =
    Outcome (Ok file)
      (MkWorld (handles w ++ [FObj (TemporaryFile p ModeWPlus UTF8 delete)
                                   (concat ws) (length (concat ws)) false])
               (<[p := []]> (fs w)) [] seed (kept w))
      [Dumped file].
Proof.
  intros Hf H.
  destruct (_temporary_file_created (ContentDumper.new (writes ws)) _ _ _ H)
    as (p & seed & Hp & -> & _ & Ht).
  exists p, seed. split; [done|]. split; [done|]. rewrite Ht.
  erewrite call_dump_writes_spec;
    [|right; simpl; by rewrite Hf|simpl; apply lookup_alloc].
  simpl. unfold set_handles. simpl.
  rewrite Hf, write_at_nil_0, insert_app_r_alt, Nat.sub_diag by lia. done.
Qed.

(** C4.  [temporary_file(delete_when_closed)] with a write-only strategy:
    a file that did not exist is created; the handle that comes back is
    open, positioned at the end of the content, and its [name] is the path
    of the file.  Closing the handle, or dropping the last reference to
    it, removes the file when [delete_when_closed] is true and leaves it
    on disk with the content otherwise. *)
Theorem temporary_file_hands_over_open_file
    (ws : list text) (delete : bool) (w : World) (file : handle) :
  faults w = [] ->
  file ∉ kept w ->
  value (NamedTemporaryFile ModeWPlus UTF8 delete w) = Ok file ->
  let self := ContentDumper.new (writes ws) in
  let content := concat ws in
  let o := ContentDumper.temporary_file self delete w in
  exists p,
    fs w !! p = None /\
    value o = Ok file /\
    events o = [Dumped file] /\
    handles (after o) !! file =
      Some (FObj (TemporaryFile p ModeWPlus UTF8 delete) content (length content) false) /\
    value (name file (after o)) = Ok p /\
    is_Some (fs (after o) !! p) /\
    (let c := close file (after o) in
     value c = Ok tt /\ closed_in file (after c) /\
     fs (after c) !! p = if delete then None else Some content) /\
    (let r := release file (after o) in
     closed_in file (after r) /\
     fs (after r) !! p = if delete then None else Some content) /\
    value (ContentDumper.string self w) = Ok content.
Proof.
  intros Hf Hk H self content o. subst o self.
  destruct (_temporary_file_of_writes ws delete w file Hf H) as (p & seed & Hp & -> & Ht).
  exists p. unfold ContentDumper.temporary_file. rewrite Ht.
  cbv zeta. cbn [value after events].
  set (f := FObj (TemporaryFile p ModeWPlus UTF8 delete) content (length content) false).
  set (w2 := MkWorld _ _ _ _ _).
  assert (Hl : handles w2 !! length (handles w) = Some f) by apply lookup_alloc.
  assert (Hc : close (length (handles w)) w2 = _) by exact (close_spec _ _ _ _ _ Hl eq_refl).
  assert (Hfs : fs_after_close (f_origin f) content (fs w2) !! p
                = if delete then None else Some content).
  { unfold fs_after_close. simpl. destruct delete.
    - apply lookup_delete_eq.
    - apply lookup_insert_eq. }
  assert (Hcl : closed_in (length (handles w)) (after (close (length (handles w)) w2))).
  { apply close_closes. simpl. rewrite length_app. simpl. lia. }
  split; [done|]. split; [done|]. split; [done|]. split; [done|].
  split; [by erewrite name_spec|].
  split; [simpl; rewrite lookup_insert_eq; by eexists|].
  split; [|split].
  - rewrite Hc. simpl. split; [done|]. split; [|exact Hfs]. by rewrite Hc in Hcl.
  - rewrite release_unreferenced by done. simpl. split; [done|].
    rewrite Hc. exact Hfs.
  - apply string_of_writes.
Qed.

Lemma temporary_file_hands_over_open_file_witness :
  let self := ContentDumper.new (writes [str "k1"; str "p1"]) in
  (exists p, value (name 0 (after (ContentDumper.temporary_file self true empty_world))) = Ok p) /\
  (exists p, value (name 0 (after (ContentDumper.temporary_file self false empty_world))) = Ok p).
Proof.
  intros self. split.
  - destruct (temporary_file_hands_over_open_file [str "k1"; str "p1"] true empty_world 0
                eq_refl (not_elem_of_nil 0) eq_refl) as (p & _ & _ & _ & _ & Hn & _).
    exists p. exact Hn.
  - destruct (temporary_file_hands_over_open_file [str "k1"; str "p1"] false empty_world 0
                eq_refl (not_elem_of_nil 0) eq_refl) as (p & _ & _ & _ & _ & Hn & _).
    exists p. exact Hn.
Defined.

Lemma events_bind_silent {A B} (m : M A) (k : A -> M B) w :
  (forall a, silent (k a)) -> events (bind m k w) = events (m w).
Proof.
  intros Hk. rewrite events_bind.
  destruct (value (m w)); [rewrite Hk|]; by rewrite app_nil_r.
Qed.


(** [temporary_path] when the strategy kept no reference to the file: the
    finaliser closes the file before the path is returned. *)
Lemma temporary_path_of_writes ws w file :
  faults w = [] ->
  file ∉ kept w ->
  value (NamedTemporaryFile ModeWPlus UTF8 false w) = Ok file ->
  exists p seed,
    fs w !! p = None /\
    ContentDumper.temporary_path (ContentDumper.new (writes ws)) w =
    Outcome (Ok p)
      (MkWorld (handles w ++ [FObj (TemporaryFile p ModeWPlus UTF8 false)
                                   (concat ws) (length (concat ws)) true])
               (<[p := concat ws]> (fs w)) [] seed (kept w))
      [Dumped file].
Proof.
  intros Hf Hk H.
  destruct (_temporary_file_of_writes ws false w file Hf H) as (p & seed & Hp & -> & Ht).
  exists p, seed. split; [done|].
  unfold ContentDumper.temporary_path.
  rewrite (bind_ok _ _ _ _ _ _ Ht).
  set (w2 := MkWorld _ _ _ _ _).
  assert (Hl : handles w2 !! length (handles w) = Some
            (FObj (TemporaryFile p ModeWPlus UTF8 false) (concat ws) (length (concat ws)) false))
    by apply lookup_alloc.
  rewrite (bind_silent _ _ _ _ _ (name_spec _ _ _ p Hl eq_refl)).
  rewrite (bind_silent _ _ _ _ _ (release_unreferenced _ w2 Hk)).
  rewrite (close_spec _ _ _ _ _ Hl eq_refl). simpl.
  unfold set_fs, set_handles, fs_after_close. simpl.
  rewrite insert_insert_eq, insert_app_r_alt, Nat.sub_diag by lia. done.
Qed.

(** C2.  [temporary_path()] never closes the file it creates: it gives up
    its reference and leaves the close to the finaliser.  With a
    write-strategy that stored the file object the call returns the path
    while the file object is open and the content has not reached the
    disk, whereas [path] with the same dumper closes its file and the
    content is on disk. *)
Theorem temporary_path_returns_with_file_open :
  let self := ContentDumper.new storing_strategy in
  let o := ContentDumper.temporary_path self empty_world in
  let q := ContentDumper.path self (str "/out") empty_world in
  value o = Ok (tmpname 0) /\
  handles (after o) !! 0 =
    Some (FObj (TemporaryFile (tmpname 0) ModeWPlus UTF8 false) (str "k2tog") 5 false) /\
  fs (after o) !! tmpname 0 = Some [] /\
  value (ContentDumper.string self empty_world) = Ok (str "k2tog") /\
  f_closed <$> handles (after q) !! 0 = Some true /\
  fs (after q) !! str "/out" = Some (str "k2tog").
Proof. vm_compute. repeat split; reflexivity. Qed.

(** ** [temporary_path] and [temporary_file] *)



(** * JSON *)

(** ** Numbers *)

Lemma scan_digits_uint_text u rest :
  no_digit_next rest = true -> scan_digits (uint_text u ++ rest) = (u, rest).
Proof.
  intros Hr. induction u; simpl; rewrite ?IHu; try reflexivity.
  destruct rest as [|c r]; [done|]. simpl in *.
  by destruct (is_digit c).
Qed.

Lemma scan_integer_uint_text u rest :
  canonical u -> no_digit_next rest = true ->
  scan_integer (uint_text u ++ rest) = Some (u, rest).
Proof.
  intros [->|Hu] Hr; [reflexivity|].
  destruct u; try done; unfold scan_integer;
    rewrite scan_digits_uint_text by done; reflexivity.
Qed.

Lemma unorm_canonical u : Decimal.unorm u = u -> canonical u.
Proof.
  intros H. destruct u; try (right; exact I).
  - discriminate H.
  - left. rewrite DecimalFacts.unorm_D0 in H.
    unfold Decimal.unorm in H.
    destruct (Decimal.nzhead u) eqn:E; try done.
    all: exfalso; eapply DecimalFacts.nzhead_nonzero; rewrite E; exact H.
Qed.

Lemma to_uint_canonical p : canonical (Pos.to_uint p).
Proof.
  apply unorm_canonical. 
  rewrite <- (DecimalPos.Unsigned.to_of (Pos.to_uint p)).
  by rewrite DecimalPos.Unsigned.of_to.
Qed.

Lemma number_end_no_digit rest : number_end rest = true -> no_digit_next rest = true.
Proof.
  destruct rest as [|c r]; [done|]. simpl. by destruct (is_digit c).
Qed.

Lemma number_end_not_float rest :
  number_end rest = true -> starts_frac rest || starts_exp rest = false.
Proof.
  destruct rest as [|c r]; [done|]. simpl.
  destruct (is_digit c), (nat_of_ascii c =? 46), (nat_of_ascii c =? 101),
    (nat_of_ascii c =? 69); simpl; try done.
  by destruct r.
Qed.

Lemma uint_text_head_digit u rest :
  u <> Decimal.Nil ->
  exists c r, uint_text u ++ rest = c :: r /\ is_digit c = true.
Proof. destruct u; try done; intros _; eexists _, _; split; reflexivity. Qed.

Lemma scan_number_minus s :
  scan_number ("-"%char :: s) =
  match scan_integer s with
  | None => None
  | Some (u, rest) =>
      if starts_frac rest || starts_exp rest then None
      else Some (PyInt (Z.of_int (Decimal.Neg u)), rest)
  end.
Proof. reflexivity. Qed.

Lemma scan_number_digit c r :
  is_digit c = true ->
  scan_number (c :: r) =
  match scan_integer (c :: r) with
  | None => None
  | Some (u, rest) =>
      if starts_frac rest || starts_exp rest then None
      else Some (PyInt (Z.of_int (Decimal.Pos u)), rest)
  end.
Proof.
  intros Hd. unfold scan_number.
  assert ((nat_of_ascii c =? 45) = false) as ->; [|done].
  unfold is_digit in Hd. apply Nat.eqb_neq. intros Heq. by rewrite Heq in Hd.
Qed.

Lemma scan_number_intstr z rest :
  number_end rest = true -> scan_number (intstr z ++ rest) = Some (PyInt z, rest).
Proof.
  intros Hr. unfold intstr.
  pose proof (DecimalZ.of_to z) as Hz.
  assert (Hc : forall p, canonical (Pos.to_uint p)) by apply to_uint_canonical.
  destruct z as [|p|p]; cbn [Z.to_int] in *.
  - unfold scan_number. simpl. by rewrite number_end_not_float.
  - destruct (uint_text_head_digit (Pos.to_uint p) rest
                (DecimalPos.Unsigned.to_uint_nonnil p)) as (c & r & E & Hd).
    rewrite E, scan_number_digit, <- E by done.
    rewrite scan_integer_uint_text by auto using number_end_no_digit.
    by rewrite number_end_not_float, Hz.
  - cbn [app]. rewrite scan_number_minus.
    rewrite scan_integer_uint_text by auto using number_end_no_digit.
    by rewrite number_end_not_float, Hz.
Qed.

(** ** Strings *)

Lemma hexval_hexdigit k : k < 16 -> hexval (hexdigit k) = Some k.
Proof. intros H. do 16 (destruct k as [|k]; [reflexivity|]). lia. Qed.

Lemma decode_uXXXX_hex c :
  decode_uXXXX "0" "0" (hexdigit (nat_of_ascii c / 16)) (hexdigit (nat_of_ascii c mod 16))
  = Some c.
Proof.
  pose proof (nat_ascii_bounded c) as Hb.
  unfold decode_uXXXX.
  change (hexval "0") with (Some 0).
  rewrite !hexval_hexdigit.
  - cbn [Nat.eqb andb]. rewrite <- Nat.div_mod_eq. by rewrite ascii_nat_embedding.
  - apply Nat.mod_upper_bound. lia.
  - apply Nat.Div0.div_lt_upper_bound. lia.
Qed.

Lemma scanstring_plain c tail t rest :
  (nat_of_ascii c =? 34) = false -> (nat_of_ascii c =? 92) = false ->
  (nat_of_ascii c <? 32) = false ->
  scanstring tail = Some (t, rest) ->
  scanstring (c :: tail) = Some (c :: t, rest).
Proof. intros H1 H2 H3 H. cbn [scanstring]. by rewrite H1, H2, H3, H. Qed.

Lemma scanstring_u h3 h4 ch tail t rest :
  decode_uXXXX "0" "0" h3 h4 = Some ch ->
  scanstring tail = Some (t, rest) ->
  scanstring (backslash :: "u"%char :: "0"%char :: "0"%char :: h3 :: h4 :: tail)
  = Some (ch :: t, rest).
Proof.
  intros H1 H2.
  change (match decode_uXXXX "0" "0" h3 h4, scanstring tail with
          | Some ch, Some (t, rest) => Some (ch :: t, rest)
          | _, _ => None
          end = Some (ch :: t, rest)).
  by rewrite H1, H2.
Qed.

Lemma scanstring_simple esc ch tail t rest :
  (nat_of_ascii esc =? 117) = false ->
  unescape esc = Some ch ->
  scanstring tail = Some (t, rest) ->
  scanstring (backslash :: esc :: tail) = Some (ch :: t, rest).
Proof.
  intros H1 H2 H3.
  change (scanstring (backslash :: esc :: tail)) with
    (if nat_of_ascii esc =? 117 then
       match tail with
       | h1 :: h2 :: h3 :: h4 :: r2 =>
           match decode_uXXXX h1 h2 h3 h4, scanstring r2 with
           | Some ch, Some (t, rest) => Some (ch :: t, rest)
           | _, _ => None
           end
       | _ => None
       end
     else
       match unescape esc, scanstring tail with
       | Some ch, Some (t, rest) => Some (ch :: t, rest)
       | _, _ => None
       end).
  by rewrite H1, H2, H3.
Qed.

Lemma ascii_of_code c n : nat_of_ascii c = n -> c = ascii_of_nat n.
Proof. intros <-. by rewrite ascii_nat_embedding. Qed.

Lemma scanstring_escape_char c tail t rest :
  scanstring tail = Some (t, rest) ->
  scanstring (escape_char c ++ tail) = Some (c :: t, rest).
Proof.
  intros H. unfold escape_char.
  destruct (nat_of_ascii c =? 92) eqn:E92.
  { apply Nat.eqb_eq, ascii_of_code in E92. subst c.
    by apply (scanstring_simple backslash). }
  destruct (nat_of_ascii c =? 34) eqn:E34.
  { apply Nat.eqb_eq, ascii_of_code in E34. subst c.
    by apply (scanstring_simple quote). }
  destruct ((32 <=? nat_of_ascii c) && (nat_of_ascii c <=? 126)) eqn:Eprint.
  { apply andb_prop in Eprint as [Hlo _].
    apply scanstring_plain; auto.
    apply Nat.ltb_ge. by apply Nat.leb_le. }
  destruct (nat_of_ascii c =? 8) eqn:E8.
  { apply Nat.eqb_eq, ascii_of_code in E8. subst c.
    by apply (scanstring_simple "b"). }
  destruct (nat_of_ascii c =? 12) eqn:E12.
  { apply Nat.eqb_eq, ascii_of_code in E12. subst c.
    by apply (scanstring_simple "f"). }
  destruct (nat_of_ascii c =? 10) eqn:E10.
  { apply Nat.eqb_eq, ascii_of_code in E10. subst c.
    by apply (scanstring_simple "n"). }
  destruct (nat_of_ascii c =? 13) eqn:E13.
  { apply Nat.eqb_eq, ascii_of_code in E13. subst c.
    by apply (scanstring_simple "r"). }
  destruct (nat_of_ascii c =? 9) eqn:E9.
  { apply Nat.eqb_eq, ascii_of_code in E9. subst c.
    by apply (scanstring_simple "t"). }
  apply scanstring_u; [apply decode_uXXXX_hex | exact H].
Qed.

Lemma scanstring_escaped s rest :
  scanstring (concat (map escape_char s) ++ quote :: rest) = Some (s, rest).
Proof.
  induction s as [|c s IH]; [reflexivity|].
  simpl. rewrite <- app_assoc. by apply scanstring_escape_char.
Qed.

Lemma scanstring_basestring s rest :
  exists body, encode_basestring_ascii s ++ rest = quote :: body /\
               scanstring body = Some (s, rest).
Proof.
  exists (concat (map escape_char s) ++ quote :: rest). split.
  - unfold encode_basestring_ascii. simpl. by rewrite <- app_assoc.
  - apply scanstring_escaped.
Qed.

(** ** Reading back what the encoder wrote *)

Lemma intstr_head z : exists c r, intstr z = c :: r /\ ((nat_of_ascii c =? 45) || is_digit c) = true.
Proof.
  unfold intstr. destruct z as [|p|p]; cbn [Z.to_int].
  - by eexists _, _.
  - destruct (uint_text_head_digit (Pos.to_uint p) []
                (DecimalPos.Unsigned.to_uint_nonnil p)) as (c & r & E & Hd).
    rewrite app_nil_r in E. exists c, r. split; [done|]. by rewrite Hd, orb_true_r.
  - by eexists _, _.
Qed.

Lemma json_text_head v :
  json_compatible v = true ->
  exists c r, json_text v = c :: r /\ value_start c = true.
Proof.
  destruct v as [| [] | z | s | [|x l] | l | [|[k x] d] | id]; try done; intros _;
    try (by eexists _, _).
  destruct (intstr_head z) as (c & r & E & H). exists c, r. split; [done|].
  unfold value_start. apply orb_prop in H as [H|H]; rewrite H; by rewrite ?orb_true_r.
Qed.

Ltac bool_to_prop H :=
  repeat (rewrite ?orb_true_iff, ?andb_true_iff, ?orb_false_iff, ?andb_false_iff,
            ?Nat.eqb_eq, ?Nat.eqb_neq, ?Nat.leb_le, ?Nat.leb_gt in H).

Lemma value_start_not_ws c : value_start c = true -> is_ws c = false.
Proof.
  unfold value_start, is_ws, is_digit. intros H.
  apply not_true_iff_false. intros H'. bool_to_prop H. bool_to_prop H'. lia.
Qed.

Lemma value_start_not_close c : value_start c = true -> (nat_of_ascii c =? 93) = false.
Proof.
  unfold value_start, is_digit. intros H.
  apply Nat.eqb_neq. bool_to_prop H. lia.
Qed.

Lemma skip_ws_value c r : value_start c = true -> skip_ws (c :: r) = c :: r.
Proof. intros H. simpl. by rewrite value_start_not_ws. Qed.

Lemma scan_once_number f c r :
  ((nat_of_ascii c =? 45) || is_digit c) = true ->
  scan_once (S f) (c :: r) = scan_number (c :: r).
Proof.
  intros H. unfold is_digit in H. bool_to_prop H.
  cbn [scan_once].
  assert ((nat_of_ascii c =? 34) = false) as -> by (apply Nat.eqb_neq; lia).
  assert ((nat_of_ascii c =? 123) = false) as -> by (apply Nat.eqb_neq; lia).
  assert ((nat_of_ascii c =? 91) = false) as -> by (apply Nat.eqb_neq; lia).
  assert ((nat_of_ascii c =? 110) = false) as -> by (apply Nat.eqb_neq; lia).
  assert ((nat_of_ascii c =? 116) = false) as -> by (apply Nat.eqb_neq; lia).
  assert ((nat_of_ascii c =? 102) = false) as -> by (apply Nat.eqb_neq; lia).
  done.
Qed.

Lemma list_tail_head l rest :
  exists c r, list_tail json_text l ++ rest = c :: r /\
              ((nat_of_ascii c =? 93) || (nat_of_ascii c =? 44)) = true.
Proof. destruct l; by eexists _, _. Qed.

Lemma dict_tail_head d rest :
  exists c r, dict_tail json_text d ++ rest = c :: r /\
              ((nat_of_ascii c =? 125) || (nat_of_ascii c =? 44)) = true.
Proof. destruct d as [|[k v] d]; by eexists _, _. Qed.

Lemma number_end_list_tail l rest : number_end (list_tail json_text l ++ rest) = true.
Proof. destruct l; reflexivity. Qed.

Lemma number_end_dict_tail d rest : number_end (dict_tail json_text d ++ rest) = true.
Proof. destruct d as [|[k v] d]; reflexivity. Qed.

Lemma skip_ws_space_value v rest :
  json_compatible v = true ->
  skip_ws (" "%char :: json_text v ++ rest) = json_text v ++ rest.
Proof.
  intros Hv. destruct (json_text_head v Hv) as (c & r & E & Hc).
  rewrite E. change (skip_ws (" "%char :: ?s)) with (skip_ws s).
  by apply skip_ws_value.
Qed.

Lemma length_list_tail_pos l : 0 < length (list_tail json_text l).
Proof. destruct l; simpl; lia. Qed.

Lemma length_dict_tail_pos d : 0 < length (dict_tail json_text d).
Proof. destruct d as [|[k v] d]; simpl; lia. Qed.

Lemma array_items_spec l :
  Forall reads_back l -> forallb json_compatible l = true ->
  forall v values f rest,
    reads_back v -> json_compatible v = true ->
    length (json_text v ++ list_tail json_text l) < f ->
    array_items f (json_text v ++ list_tail json_text l ++ rest) values
    = Some (values ++ v :: l, rest).
Proof.
  induction l as [|v' l IH]; intros Hall Hc v values f rest Hv Hcv Hlen;
    rewrite length_app in Hlen;
    (destruct f as [|f]; [lia|]); cbn [array_items].
  - rewrite (Hv Hcv f) by (simpl in *; (lia || done)). reflexivity.
  - pose proof (length_list_tail_pos (v' :: l)) as Hpos.
    rewrite (Hv Hcv f) by (lia || apply number_end_list_tail).
    apply Forall_cons in Hall as [Hv' Hall].
    cbn [forallb] in Hc. apply andb_prop in Hc as [Hcv' Hc].
    change (list_tail json_text (v' :: l) ++ rest)
      with (","%char :: " "%char :: (json_text v' ++ list_tail json_text l) ++ rest).
    rewrite <- app_assoc.
    change (skip_ws (","%char :: ?s)) with (","%char :: s).
    cbv beta iota.
    change (nat_of_ascii "," =? 93) with false.
    change (nat_of_ascii "," =? 44) with true.
    cbv iota.
    rewrite skip_ws_space_value by done.
    rewrite (IH Hall Hc v' (values ++ [v]) f rest Hv' Hcv').
    + by rewrite <- app_assoc.
    + simpl in Hlen. rewrite !length_app in *. simpl in Hlen. lia.
Qed.

Lemma dict_item_str key v : dict_item json_text (KStr key) v = quote :: item_body key v.
Proof.
  unfold dict_item, item_body, encode_basestring_ascii. simpl.
  by rewrite <- app_assoc.
Qed.

Lemma object_items_spec d :
  Forall (fun kv => reads_back (snd kv)) d ->
  forallb (fun '(k, v) => is_str_key k && json_compatible v) d = true ->
  forall key v pairs f rest,
    reads_back v -> json_compatible v = true ->
    length (item_body key v ++ dict_tail json_text d) < f ->
    object_items f (item_body key v ++ dict_tail json_text d ++ rest) pairs
    = Some (pairs ++ (key, v) :: map pair_of d, rest).
Proof.
  induction d as [|[k' v'] d IH]; intros Hall Hc key v pairs f rest Hv Hcv Hlen;
    (destruct f as [|f]; [lia|]); cbn [object_items];
    unfold item_body in *; rewrite <- !app_assoc, <- !app_comm_cons;
    rewrite scanstring_escaped;
    rewrite !length_app in Hlen; cbn [length] in Hlen.
  - change (skip_ws (":"%char :: ?s)) with (":"%char :: s). cbv beta iota.
    change (nat_of_ascii ":" =? 58) with true. cbv iota.
    cbn [app]. rewrite skip_ws_space_value by done.
    rewrite (Hv Hcv f) by (simpl; (lia || done)). reflexivity.
  - pose proof (length_dict_tail_pos ((k', v') :: d)) as Hpos.
    change (skip_ws (":"%char :: ?s)) with (":"%char :: s). cbv beta iota.
    change (nat_of_ascii ":" =? 58) with true. cbv iota.
    cbn [app]. rewrite skip_ws_space_value by done.
    rewrite (Hv Hcv f) by (lia || apply number_end_dict_tail).
    apply Forall_cons in Hall as [Hv' Hall].
    cbn [forallb] in Hc. apply andb_prop in Hc as [Hk Hc].
    apply andb_prop in Hk as [Hk' Hcv'].
    destruct k' as [key'| | | |]; try done.
    change (dict_tail json_text ((KStr key', v') :: d) ++ rest)
      with ((","%char :: " "%char :: dict_item json_text (KStr key') v'
                ++ dict_tail json_text d) ++ rest).
    rewrite dict_item_str. cbn [app].
    change (skip_ws (","%char :: ?s)) with (","%char :: s). cbv beta iota.
    change (nat_of_ascii "," =? 125) with false.
    change (nat_of_ascii "," =? 44) with true. cbv iota.
    change (skip_ws (" "%char :: quote :: ?s)) with (quote :: s). cbv beta iota.
    change (nat_of_ascii quote =? 34) with true. cbv iota.
    rewrite <- app_assoc. unfold item_body.
    rewrite (IH Hall Hc key' v' (pairs ++ [(key, v)]) f rest Hv' Hcv').
    + by rewrite <- app_assoc.
    + change (dict_tail json_text ((KStr key', v') :: d))
        with (","%char :: " "%char :: dict_item json_text (KStr key') v'
                ++ dict_tail json_text d) in Hlen.
      rewrite dict_item_str in Hlen. unfold item_body in Hlen.
      cbn [app length] in Hlen.
      rewrite !length_app in *. cbn [length] in *. lia.
Qed.

(** ** Dictionaries *)

Lemma dict_set_fresh key v acc :
  Forall (fun kv => key_eqb (fst kv) key = false) acc ->
  dict_set key v acc = acc ++ [(key, v)].
Proof.
  induction 1 as [|[k v'] acc Hk _ IH]; [done|].
  simpl in *. by rewrite Hk, IH.
Qed.

Lemma key_eqb_str_sym a b : key_eqb (KStr a) (KStr b) = key_eqb (KStr b) (KStr a).
Proof. simpl. apply bool_decide_ext. naive_solver. Qed.

Lemma fold_dict_set d : forall acc,
  forallb (fun '(k, v) => is_str_key k && json_compatible v) d = true ->
  distinct_keys (map fst d) = true ->
  Forall (fun kv => Forall (fun kv' => key_eqb (fst kv) (fst kv') = false) d) acc ->
  fold_left (fun d '(k, v) => dict_set (KStr k) v d) (map pair_of d) acc = acc ++ d.
Proof.
  induction d as [|[k v] d IH]; intros acc Hc Hd Hacc; [by rewrite app_nil_r|].
  cbn [forallb] in Hc. apply andb_prop in Hc as [Hk Hc].
  apply andb_prop in Hk as [Hk _].
  destruct k as [key| | | |]; try done.
  cbn [map fst distinct_keys] in Hd. apply andb_prop in Hd as [Hfresh Hd].
  cbn [map fold_left pair_of fst snd key_text default].
  rewrite dict_set_fresh.
  - rewrite IH; [by rewrite <- app_assoc|done|done|].
    apply Forall_app. split.
    + eapply Forall_impl; [exact Hacc|]. intros kv H. by apply Forall_cons in H as [_ H].
    + apply Forall_singleton. cbn [fst].
      apply negb_true_iff in Hfresh.
      apply Forall_forall. intros [k' v'] Hin.
      destruct (key_eqb (KStr key) k') eqn:E; [|done].
      assert (existsb (key_eqb (KStr key)) (map fst d) = true); [|congruence].
      apply existsb_exists. exists k'. split; [|done].
      apply in_map_iff. exists (k', v'). split; [done|]. by apply list_elem_of_In.
  - eapply Forall_impl; [exact Hacc|]. intros kv H. by apply Forall_cons in H as [H _].
Qed.

Lemma dict_of_pairs_id d :
  forallb (fun '(k, v) => is_str_key k && json_compatible v) d = true ->
  distinct_keys (map fst d) = true ->
  dict_of_pairs (map pair_of d) = d.
Proof. intros Hc Hd. unfold dict_of_pairs. by rewrite fold_dict_set. Qed.

(** ** The round trip *)

Lemma scan_once_json_text x : reads_back x.
Proof.
  induction x as [| b | z | s | l IH | l IH | d IH | id] using pyobj_ind;
    intros Hc fuel rest Hlen Hrest; try done;
    (destruct fuel as [|f]; [lia|]).
  - reflexivity.
  - by destruct b.
  - destruct (intstr_head z) as (c & r & E & H).
    assert (Hs : json_text (PyInt z) ++ rest = c :: (r ++ rest))
      by (cbn [json_text]; by rewrite E).
    rewrite Hs, scan_once_number, <- Hs by done.
    by apply scan_number_intstr.
  - destruct (scanstring_basestring s rest) as (body & E & H).
    cbn [json_text]. rewrite E. cbn [scan_once].
    change (nat_of_ascii quote =? 34) with true. cbv iota. by rewrite H.
  - destruct l as [|v l]; [reflexivity|].
    apply Forall_cons in IH as [Hv Hl].
    cbn [json_compatible forallb] in Hc. apply andb_prop in Hc as [Hcv Hcl].
    destruct (json_text_head v Hcv) as (c & r & E & Hstart).
    change (json_text (PyList (v :: l)) ++ rest)
      with ("["%char :: (json_text v ++ list_tail json_text l) ++ rest).
    rewrite <- app_assoc. cbn [scan_once].
    change (nat_of_ascii "[" =? 34) with false.
    change (nat_of_ascii "[" =? 123) with false.
    change (nat_of_ascii "[" =? 91) with true. cbv iota.
    assert (Hs : json_text v ++ list_tail json_text l ++ rest
                 = c :: (r ++ list_tail json_text l ++ rest)) by (by rewrite E).
    rewrite Hs, skip_ws_value by done.
    rewrite value_start_not_close by done. rewrite <- Hs.
    rewrite (array_items_spec l Hl Hcl v [] f rest Hv Hcv); [done|].
    change (json_text (PyList (v :: l)))
      with ("["%char :: json_text v ++ list_tail json_text l) in Hlen.
    cbn [length] in Hlen. lia.
  - destruct d as [|[k v] d]; [reflexivity|].
    apply Forall_cons in IH as [Hv Hd]. cbn [snd] in Hv.
    cbn [json_compatible] in Hc. apply andb_prop in Hc as [Hc Hdist].
    pose proof Hc as Hc'.
    cbn [forallb] in Hc. apply andb_prop in Hc as [Hk Hcd].
    apply andb_prop in Hk as [Hk Hcv].
    destruct k as [key| | | |]; try done.
    change (json_text (PyDict ((KStr key, v) :: d)))
      with ("{"%char :: dict_item json_text (KStr key) v ++ dict_tail json_text d) in *.
    rewrite dict_item_str in *. cbn [app length] in *.
    rewrite <- app_assoc. cbn [scan_once].
    change (nat_of_ascii "{" =? 34) with false.
    change (nat_of_ascii "{" =? 123) with true. cbv iota.
    cbn [hd]. change (nat_of_ascii quote =? 34) with true. cbn [negb].
    change (nat_of_ascii quote =? 125) with false. cbv iota.
    rewrite (object_items_spec d Hd Hcd key v [] f rest Hv Hcv) by lia.
    change ([] ++ (key, v) :: map pair_of d) with (map pair_of ((KStr key, v) :: d)).
    by rewrite dict_of_pairs_id.
Qed.

Lemma json_loads_json_text x :
  json_compatible x = true -> json_loads (json_text x) = Some x.
Proof.
  intros Hc. unfold json_loads.
  destruct (json_text_head x Hc) as (c & r & E & Hstart).
  rewrite E, skip_ws_value, <- E by done.
  rewrite <- (app_nil_r (json_text x)) at 2.
  rewrite (scan_once_json_text x Hc) by (done || lia). done.
Qed.

(** ** The generator and the document *)

Lemma then_ok a b :
  snd a = None -> then_ a b = (fst a ++ fst b, snd b).
Proof. intros H. unfold then_. by rewrite H. Qed.

Lemma then_fail a b e :
  snd a = Some e -> then_ a b = a.
Proof. intros H. unfold then_. by rewrite H. Qed.

Lemma atom_encodes v s :
  atom v = Some s ->
  json_serializable v = true /\ json_text v = s /\ iterencode v = yield s.
Proof.
  destruct v as [| [] | z | t | l | l | d | id]; try done; intros [= <-]; done.
Qed.

Lemma atom_None_list v :
  atom v = None -> json_serializable v = true -> encodes v ->
  snd (iterencode v) = None /\ concat (fst (iterencode v)) = json_text v.
Proof. intros _ Hs He. unfold encodes in He. by rewrite Hs in He. Qed.

Lemma loop_text_false l : loop_text false l = list_tail json_text l.
Proof. by destruct l. Qed.

Lemma iterencode_list_encodes l :
  Forall encodes l ->
  forall first,
    if forallb json_serializable l
    then snd (iterencode_list iterencode first l) = None /\
         concat (fst (iterencode_list iterencode first l)) = loop_text first l
    else snd (iterencode_list iterencode first l) = Some TypeError.
Proof.
  induction 1 as [|v l Hv _ IH]; intros first; [done|].
  cbn [forallb iterencode_list]. specialize (IH false).
  unfold encodes in Hv.
  destruct (atom v) as [s|] eqn:Ha.
  - destruct (atom_encodes _ _ Ha) as (Hs & Ht & _). rewrite Hs. cbn [andb].
    rewrite then_ok by done. cbn [fst snd yield].
    destruct (forallb json_serializable l); [|done].
    destruct IH as [IH1 IH2]. split; [done|].
    cbn [concat app loop_text]. rewrite IH2, loop_text_false, Ht.
    by rewrite <- app_assoc.
  - destruct (json_serializable v); cbn [andb].
    + destruct Hv as [Hv1 Hv2].
      rewrite (then_ok (yield _)) by done. cbn [fst snd yield].
      rewrite then_ok by done. cbn [fst snd].
      destruct (forallb json_serializable l); [|done].
      destruct IH as [IH1 IH2]. split; [done|].
      cbn [concat app loop_text]. by rewrite concat_app, Hv2, IH2, loop_text_false.
    + rewrite (then_ok (yield _)) by done. cbn [fst snd yield].
      by erewrite then_fail.
Qed.

Lemma dict_loop_text_false d : dict_loop_text false d = dict_tail json_text d.
Proof. by destruct d as [|[k v] d]. Qed.

Lemma iterencode_dict_encodes d :
  Forall (fun kv => encodes (snd kv)) d ->
  forall first,
    if forallb item_serializable d
    then snd (iterencode_dict iterencode first d) = None /\
         concat (fst (iterencode_dict iterencode first d)) = dict_loop_text first d
    else snd (iterencode_dict iterencode first d) = Some TypeError.
Proof.
  induction 1 as [|[k v] d Hv _ IH]; intros first; [done|].
  cbn [forallb iterencode_dict item_serializable]. specialize (IH false).
  cbn [snd] in Hv. unfold encodes in Hv.
  destruct (key_text k) as [key|] eqn:Hk; [|done]. cbn [andb].
  set (val := match atom v with Some s => yield s | None => iterencode v end).
  assert (Hval : if json_serializable v
                 then snd val = None /\ concat (fst val) = json_text v
                 else snd val = Some TypeError).
  { subst val. destruct (atom v) as [s|] eqn:Ha; [|done].
    destruct (atom_encodes _ _ Ha) as (Hs & Ht & _). rewrite Hs.
    split; [done|]. simpl. by rewrite app_nil_r. }
  destruct first;
    (rewrite then_ok by done); (rewrite (then_ok (yield _)) by done);
    (rewrite (then_ok (yield _)) by done);
    (destruct (json_serializable v); cbn [andb];
     [ destruct Hval as [Hv1 Hv2]; rewrite then_ok by done; cbn [fst snd yield stop];
       destruct (forallb item_serializable d); [|done];
       destruct IH as [IH1 IH2]; split; [done|];
       cbn [app concat]; rewrite concat_app, Hv2, IH2, dict_loop_text_false;
       cbn [dict_loop_text]; unfold dict_item; rewrite Hk; cbn [default app];
       by rewrite <- !app_assoc
     | by erewrite then_fail ]).
Qed.

Lemma iterencode_encodes x : encodes x.
Proof.
  induction x as [| b | z | s | l IH | l IH | d IH | id] using pyobj_ind;
    unfold encodes; try done.
  - by destruct b.
  - cbn [json_serializable json_text iterencode atom]. split; [done|].
    simpl. by rewrite app_nil_r.
  - cbn [json_serializable json_text iterencode atom]. split; [done|].
    simpl. by rewrite app_nil_r.
  - destruct l as [|v l]; [done|].
    exact (iterencode_list_encodes (v :: l) IH true).
  - destruct l as [|v l]; [done|].
    exact (iterencode_list_encodes (v :: l) IH true).
  - destruct d as [|[k v] d]; [done|].
    pose proof (iterencode_dict_encodes ((k, v) :: d) IH true) as H.
    change (json_serializable (PyDict ((k, v) :: d)))
      with (forallb item_serializable ((k, v) :: d)).
    change (iterencode (PyDict ((k, v) :: d)))
      with (then_ (yield (str "{")) (iterencode_dict iterencode true ((k, v) :: d))).
    rewrite then_ok by done. cbn [fst snd yield].
    destruct (forallb item_serializable ((k, v) :: d)); [|done].
    destruct H as [H1 H2]. split; [done|].
    cbn [concat app]. by rewrite H2.
Qed.

Lemma json_compatible_serializable x :
  json_compatible x = true -> json_serializable x = true.
Proof.
  induction x as [| b | z | s | l IH | l IH | d IH | id] using pyobj_ind; try done.
  - cbn [json_compatible json_serializable].
    induction IH as [|v l Hv _ IHl]; [done|]. cbn [forallb].
    intros [H1 H2]%andb_prop. by rewrite Hv, IHl.
  - cbn [json_compatible json_serializable]. intros [H _]%andb_prop. revert H.
    induction IH as [|[k v] d Hv _ IHd]; [done|]. cbn [forallb snd] in *.
    intros [[Hk H1]%andb_prop H2]%andb_prop.
    destruct k; try done. cbn [key_text andb]. by rewrite Hv, IHd.
Qed.

Lemma json_dumps_text x :
  json_serializable x = true -> json_dumps x = Ok (json_text x).
Proof.
  intros Hs. pose proof (iterencode_encodes x) as H. unfold encodes in H.
  rewrite Hs in H. destruct H as [H1 H2]. unfold json_dumps. by rewrite H1, H2.
Qed.

Lemma json_dumps_TypeError x :
  json_serializable x = false -> json_dumps x = Raise TypeError.
Proof.
  intros Hs. pose proof (iterencode_encodes x) as H. unfold encodes in H.
  rewrite Hs in H. unfold json_dumps. by rewrite H.
Qed.

(** [json.loads(json.dumps(x)) == x] *)
Lemma json_round_trip x :
  json_compatible x = true ->
  exists s, json_dumps x = Ok s /\ json_loads s = Some x.
Proof.
  intros Hc. exists (json_text x). split.
  - by apply json_dumps_text, json_compatible_serializable.
  - by apply json_loads_json_text.
Qed.

(** * JSONDumper *)

Lemma json_dump_spec obj fp w org b p :
  on_disk org = None \/ faults w = [] ->
  handles w !! fp = Some (FObj org b p false) ->
  json_dump obj fp w =
  Outcome (match snd (iterencode obj) with Some e => Raise e | None => Ok tt end)
    (set_handles
       (<[fp := FObj org (write_at b p (concat (fst (iterencode obj))))
                     (p + length (concat (fst (iterencode obj)))) false]> (handles w)) w)
    [Encoded obj].
Proof.
  intros Hf Hh. unfold json_dump.
  rewrite (bind_ok (emit (Encoded obj)) _ w tt w [Encoded obj] eq_refl).
  rewrite (bind_silent _ _ _ _ _ (write_all_spec _ _ _ _ _ _ Hf Hh)).
  by destruct (snd (iterencode obj)).
Qed.

Lemma _dump_to_file_run (self : JSONDumper) file w :
  JSONDumper._dump_to_file self file w =
  match fst (dump_to_json self w) with
  | Ok obj =>
      let o := json_dump obj file (snd (dump_to_json self w)) in
      Outcome (value o) (after o) (Provided :: events o)
  | Raise e => Outcome (Raise e) (snd (dump_to_json self w)) [Provided]
  end.
Proof.
  unfold JSONDumper._dump_to_file, JSONDumper.object, bind, emit, lift_user. simpl.
  destruct (dump_to_json self w) as [[obj|e] w2]; reflexivity.
Qed.

Lemma silent_json_dump_tail obj file w :
  events (json_dump obj file w) = [Encoded obj].
Proof.
  unfold json_dump. rewrite events_bind. simpl.
  rewrite events_bind_silent; [by rewrite silent_write_all|].
  intros []. by destruct (snd (iterencode obj)).
Qed.



(** ** Calls of the object-provider and of the encoder *)

Lemma events_after_destination {A} (dest : M handle) (k : handle -> M A)
    (body : handle -> M unit) w :
  silent dest ->
  (forall file w', events (k file w') = events (body file w')) ->
  events (bind dest k w) =
  match value (dest w) with
  | Ok file => events (body file (after (dest w)))
  | Raise _ => []
  end.
Proof.
  intros Hd Hk. rewrite events_bind, Hd. simpl.
  destruct (value (dest w)); [apply Hk | done].
Qed.

Lemma value_after_destination {A} (dest : M handle) (k : handle -> M A) w e :
  value (dest w) = Raise e -> value (bind dest k w) = Raise e.
Proof. intros H. by rewrite value_bind, H. Qed.

(** The events of a call are those of the one call of the write-strategy;
    there is none when the destination could not be had. *)
Lemma events_call (self : ContentDumper) (m : method) (w : World) :
  events (call self m w) =
  match value (destination m w) with
  | Ok file => events (call_dump self file (after (destination m w)))
  | Raise _ => []
  end.
Proof.
  destruct m as [|[f|]|p| |d]; cbn [call destination]; unfold void.
  - rewrite events_bind_silent by (intros; silence).
    unfold ContentDumper.string.
    apply events_after_destination; [silence|].
    intros file w'. apply events_bind_silent. intros; silence.
  - rewrite events_bind_silent by (intros; silence).
    unfold ContentDumper.file.
    apply (events_after_destination (ret f)); [silence|].
    intros file w'. apply events_bind_silent. intros; silence.
  - rewrite events_bind_silent by (intros; silence).
    unfold ContentDumper.file.
    apply events_after_destination; [silence|].
    intros file w'. apply events_bind_silent. intros; silence.
  - unfold ContentDumper.path.
    apply events_after_destination; [silence|].
    intros file w'. by rewrite with_file_outcome.
  - rewrite events_bind_silent by (intros; silence).
    unfold ContentDumper.temporary_path.
    rewrite events_bind_silent by (intros; silence).
    unfold ContentDumper._temporary_file.
    apply events_after_destination; [silence|].
    intros file w'. apply events_bind_silent. intros; silence.
  - rewrite events_bind_silent by (intros; silence).
    unfold ContentDumper.temporary_file, ContentDumper._temporary_file.
    apply events_after_destination; [silence|].
    intros file w'. apply events_bind_silent. intros; silence.
Qed.

Lemma value_call_no_destination (self : ContentDumper) (m : method) (w : World) e :
  value (destination m w) = Raise e -> value (call self m w) = Raise e.
Proof.
  intros H.
  destruct m as [|[f|]|p| |d]; cbn [call destination] in *; unfold void; try done.
  - unfold ContentDumper.path. by apply value_after_destination.
  - rewrite value_bind. unfold ContentDumper.temporary_path. rewrite value_bind.
    unfold ContentDumper._temporary_file. by rewrite (value_after_destination _ _ _ _ H).
  - rewrite value_bind.
    unfold ContentDumper.temporary_file, ContentDumper._temporary_file.
    by rewrite (value_after_destination _ _ _ _ H).
Qed.

Lemma events_call_dump_json (self : JSONDumper) file w :
  events (call_dump (JSONDumper.super self) file w) =
  Dumped file :: Provided ::
  match fst (dump_to_json self w) with
  | Ok obj => [Encoded obj]
  | Raise _ => []
  end.
Proof.
  unfold call_dump. rewrite events_bind.
  cbn [emit value after events app dump_to_file JSONDumper.super].
  rewrite _dump_to_file_run.
  destruct (dump_to_json self w) as [[obj|e] w2]; cbn [fst snd events]; [|done].
  by rewrite silent_json_dump_tail.
Qed.

(** C5, as the code has it.  A call that gets its destination calls the
    object-provider exactly once, and when the provider returns an object
    it encodes that object, the one of this very call, exactly once; when
    the provider raises nothing is encoded.  A call that cannot open or
    create its destination raises before it calls the provider. *)
Theorem provider_called_once_per_materialisation
    (self : JSONDumper) (m : method) (w : World) :
  let o := call (JSONDumper.super self) m w in
  match value (destination m w) with
  | Ok file =>
      events o =
        Dumped file :: Provided ::
        match fst (dump_to_json self (after (destination m w))) with
        | Ok obj => [Encoded obj]
        | Raise _ => []
        end /\
      provider_calls (events o) = 1 /\
      encoded_objects (events o) =
        match fst (dump_to_json self (after (destination m w))) with
        | Ok obj => [obj]
        | Raise _ => []
        end
  | Raise e =>
      value o = Raise e /\
      provider_calls (events o) = 0 /\
      encoded_objects (events o) = []
  end.
Proof.
  intros o. subst o. rewrite events_call.
  destruct (value (destination m w)) as [file|e] eqn:Hd.
  - rewrite events_call_dump_json.
    by destruct (fst (dump_to_json self (after (destination m w)))).
  - split; [by apply value_call_no_destination|done].
Qed.

(** C5 as the specification states it fails for [path] when the file
    cannot be opened: the provider is not called at all. *)
Lemma provider_not_called_when_open_fails :
  let self := JSONDumper.new (fun w => (Ok PyNone, w)) in
  let w := set_faults [Some (OSError 2)] empty_world in
  let o := call (JSONDumper.super self) (path_ (str "/missing/pattern.json")) w in
  value o = Raise (OSError 2) /\
  provider_calls (events o) = 0 /\
  encoded_objects (events o) = [] /\
  provider_calls (events o) <> 1.
Proof. vm_compute. repeat split; try reflexivity. discriminate. Qed.

(** ** Failures of the provider and of the encoder *)

(** How a call ends when the write-strategy raises. *)
Lemma value_call_raise (self : ContentDumper) (m : method) (w : World) file e :
  value (destination m w) = Ok file ->
  value (call_dump self file (after (destination m w))) = Raise e ->
  value (call self m w) =
  match m with
  | path_ _ =>
      match value (close file (after (call_dump self file (after (destination m w))))) with
      | Raise e2 => Raise e2
      | Ok _ => Raise e
      end
  | _ => Raise e
  end.
Proof.
  intros Hd He.
  destruct m as [|[f|]|p| |d]; cbn [call destination] in *; unfold void.
  - rewrite value_bind. unfold ContentDumper.string.
    rewrite value_bind, Hd, value_bind, He. done.
  - rewrite value_bind. unfold ContentDumper.file.
    rewrite value_bind, Hd, value_bind, He. done.
  - rewrite value_bind. unfold ContentDumper.file.
    rewrite value_bind, Hd, value_bind, He. done.
  - unfold ContentDumper.path. rewrite value_bind, Hd, with_file_outcome.
    cbn [value]. by rewrite He.
  - rewrite value_bind. unfold ContentDumper.temporary_path.
    rewrite value_bind. unfold ContentDumper._temporary_file.
    rewrite value_bind, Hd, value_bind, He. done.
  - rewrite value_bind.
    unfold ContentDumper.temporary_file, ContentDumper._temporary_file.
    rewrite value_bind, Hd, value_bind, He. done.
Qed.

Lemma after_call_dump (self : ContentDumper) file w :
  after (call_dump self file w) = after (dump_to_file self file w) /\
  value (call_dump self file w) = value (dump_to_file self file w).
Proof. unfold call_dump. by rewrite after_bind, value_bind. Qed.




(** * Further properties of ContentDumper *)

Lemma write_at_end b c : write_at b (length b) c = b ++ c.
Proof.
  destruct (decide (c = [])) as [->|Hc]; [by rewrite app_nil_r|].
  rewrite write_at_nonempty by done.
  rewrite firstn_all, Nat.sub_diag, drop_ge by lia. simpl. by rewrite app_nil_r.
Qed.

(** X1.  When the write-strategy returns normally but has closed the
    buffer it was given, [string()] fails in [file.seek(0)] with
    [ValueError]; nothing is read and the world stays as the strategy left
    it. *)
Theorem string_raises_ValueError_on_closed_buffer
    (on_dump : handle -> World -> result unit * World) (w w' : World) (b : text) (p : nat) :
  let file := length (handles w) in
  on_dump file (after (StringIO_new w)) = (Ok tt, w') ->
  handles w' !! file = Some (FObj StringIO b p true) ->
  ContentDumper.string (ContentDumper.new on_dump) w =
  Outcome (Raise ValueError) w' [Dumped file].
Proof.
  intros file Hd Hf.
  unfold ContentDumper.string.
  rewrite (bind_silent _ _ _ _ _ (eq_refl : StringIO_new w = Outcome (Ok file) _ [])).
  assert (Hc : call_dump (ContentDumper.new on_dump) file (after (StringIO_new w))
               = Outcome (Ok tt) w' [Dumped file]).
  { unfold call_dump, ContentDumper.new, bind, emit, lift_user. cbn [dump_to_file value after events].
    fold file. by rewrite Hd. }
  rewrite (bind_ok _ _ _ _ _ _ Hc).
  assert (Hs : seek file 0 w' = Outcome (Raise ValueError) w' []).
  { unfold seek. by rewrite (bind_silent _ _ _ _ _ (get_file_spec _ _ _ Hf)). }
  by rewrite (bind_raise _ _ _ _ _ _ Hs).
Qed.

Lemma string_raises_ValueError_on_closed_buffer_witness :
  value (ContentDumper.string (ContentDumper.new closing_strategy) empty_world)
  = Raise ValueError.
Proof.
  rewrite (string_raises_ValueError_on_closed_buffer closing_strategy empty_world
             (after (dump_to_file (ContentDumper.new closing_strategy) 0
                       (after (StringIO_new empty_world))))
             (str "p1") 2 eq_refl eq_refl).
  reflexivity.
Defined.

(** X2.  No materialisation method swallows an exception of the
    write-strategy.  When the method got its destination and the strategy
    raises [e], then [string], [file], [temporary_path] and
    [temporary_file] raise [e]; [path] raises [e] as well when closing the
    file succeeds, and the exception of the close otherwise. *)
Theorem strategy_exception_comes_out
    (self : ContentDumper) (m : method) (w : World) (file : handle) (e : exn) :
  value (destination m w) = Ok file ->
  value (dump_to_file self file (after (destination m w))) = Raise e ->
  let d := call_dump self file (after (destination m w)) in
  value (call self m w) =
  match m with
  | path_ _ => match value (close file (after d)) with
               | Raise e2 => Raise e2
               | Ok _ => Raise e
               end
  | _ => Raise e
  end.
Proof.
  intros Hd He d. apply value_call_raise; [done|].
  by rewrite (proj2 (after_call_dump self file _)).
Qed.

Lemma strategy_exception_comes_out_witness :
  value (call (ContentDumper.new (writes_then_raise [str "k1"] (UserError 3)))
              temporary_path_ empty_world) = Raise (UserError 3).
Proof.
  exact (strategy_exception_comes_out
           (ContentDumper.new (writes_then_raise [str "k1"] (UserError 3)))
           temporary_path_ empty_world 0 (UserError 3) eq_refl eq_refl).
Defined.

(** X3.  [string()] with a write-only strategy touches nothing but its own
    buffer: the file system, the objects that exist already and the rest
    of the world are as before, and no request is made to the operating
    system. *)
Theorem string_leaves_the_world_alone (ws : list text) (w : World) :
  ContentDumper.string (ContentDumper.new (writes ws)) w =
  Outcome (Ok (concat ws))
    (set_handles (handles w ++ [FObj StringIO (concat ws) (length (concat ws)) false]) w)
    [Dumped (length (handles w))].
Proof.
  pose proof (write_all_spec (length (handles w)) ws (after (StringIO_new w)) StringIO [] 0
                (or_introl eq_refl) (lookup_alloc _ _)) as Hw.
  rewrite write_at_nil_0 in Hw.
  set (w1 := after (StringIO_new w)) in *.
  set (f := FObj StringIO (concat ws) (0 + length (concat ws)) false) in *.
  rewrite (string_run (ContentDumper.new (writes ws)) w
             (set_handles (<[length (handles w) := f]> (handles w1)) w1)
             (concat ws) (0 + length (concat ws)) []).
  - subst w1 f. cbn [handles set_handles after StringIO_new alloc].
    rewrite list_insert_insert_eq, insert_app_r_alt, Nat.sub_diag by lia.
    reflexivity.
  - unfold ContentDumper.new, lift_user, writes, user. cbn [dump_to_file].
    fold w1. rewrite Hw. reflexivity.
  - cbn [handles set_handles].
    apply list_lookup_insert_eq. subst w1. simpl. rewrite length_app. simpl. lia.
Qed.

Lemma file_None_of_writes ws w :
  ContentDumper.file (ContentDumper.new (writes ws)) None w =
  Outcome (Ok (length (handles w)))
    (set_handles (handles w ++ [FObj StringIO (concat ws) (length (concat ws)) false]) w)
    [Dumped (length (handles w))].
Proof.
  unfold ContentDumper.file.
  rewrite (bind_silent _ _ _ _ _
             (eq_refl : StringIO_new w = Outcome (Ok (length (handles w))) _ [])).
  rewrite (bind_ok _ _ _ _ _ _
             (call_dump_writes_spec ws (length (handles w)) (after (StringIO_new w))
                StringIO [] 0 (or_introl eq_refl) (lookup_alloc _ _))).
  cbn [ret value after events handles set_handles StringIO_new alloc].
  rewrite write_at_nil_0, insert_app_r_alt, Nat.sub_diag by lia.
  reflexivity.
Qed.

Lemma read_spec h w o b p :
  handles w !! h = Some (FObj o b p false) -> readable o = true ->
  read h w =
  Outcome (Ok (drop p b))
    (set_handles (<[h := FObj o b (Nat.max p (length b)) false]> (handles w)) w) [].
Proof.
  intros Hh Hr. unfold read.
  rewrite (bind_silent _ _ _ _ _ (get_file_spec _ _ _ Hh)). cbn [f_closed f_origin].
  rewrite Hr. reflexivity.
Qed.

Lemma seek_spec h w o b p q :
  handles w !! h = Some (FObj o b p false) ->
  seek h q w = Outcome (Ok q) (set_handles (<[h := FObj o b q false]> (handles w)) w) [].
Proof.
  intros Hh. unfold seek.
  by rewrite (bind_silent _ _ _ _ _ (get_file_spec _ _ _ Hh)).
Qed.

Lemma rewind_and_read h w o b p :
  handles w !! h = Some (FObj o b p false) -> readable o = true ->
  value ((seek h 0 ;;; read h) w) = Ok b.
Proof.
  intros Hh Hr. rewrite (bind_silent _ _ _ _ _ (seek_spec _ _ _ _ _ 0 Hh)).
  rewrite (read_spec h _ o b 0); [done| |done].
  apply list_lookup_insert_eq. by eapply lookup_lt_Some.
Qed.

(** X4.  The buffer [file(None)] returns is positioned behind the content:
    reading it right away gives the empty text, and the content comes out
    only after [seek(0)]. *)
Theorem file_None_must_be_rewound (ws : list text) (w : World) :
  let o := ContentDumper.file (ContentDumper.new (writes ws)) None w in
  let file := length (handles w) in
  value o = Ok file /\
  value (read file (after o)) = Ok [] /\
  value ((seek file 0 ;;; read file) (after o)) = Ok (concat ws).
Proof.
  intros o file. subst o. rewrite file_None_of_writes. cbn [value after].
  split; [done|]. split.
  - rewrite (read_spec _ _ StringIO (concat ws) (length (concat ws)));
      [|apply lookup_alloc|done].
    cbn [value]. by rewrite drop_all.
  - eapply rewind_and_read; [apply lookup_alloc|done].
Qed.

(** X5.  [file(s)] writes at the position of [s].  For a stream positioned
    at its end the content is appended, and dumping twice into the same
    stream leaves the content twice, one copy behind the other. *)
Theorem file_twice_appends_twice
    (ws : list text) (s : handle) (w : World) (org : origin) (b : text) :
  handles w !! s = Some (FObj org b (length b) false) ->
  on_disk org = None \/ faults w = [] ->
  let self := ContentDumper.new (writes ws) in
  let c := concat ws in
  let o1 := ContentDumper.file self (Some s) w in
  let o2 := ContentDumper.file self (Some s) (after o1) in
  value o1 = Ok s /\
  handles (after o1) !! s = Some (FObj org (b ++ c) (length (b ++ c)) false) /\
  value o2 = Ok s /\
  handles (after o2) !! s = Some (FObj org (b ++ c ++ c) (length (b ++ c ++ c)) false).
Proof.
  intros Hs Hf self c o1 o2.
  assert (H1 : o1 = Outcome (Ok s)
                 (set_handles (<[s := FObj org (b ++ c) (length (b ++ c)) false]> (handles w)) w)
                 [Dumped s]).
  { subst o1 self. unfold ContentDumper.file.
    rewrite (bind_silent (ret s) _ w s w eq_refl).
    rewrite (bind_ok _ _ _ _ _ _ (call_dump_writes_spec ws s w org b _ Hf Hs)).
    cbn [ret value after events]. fold c. by rewrite write_at_end, length_app. }
  assert (Hs1 : handles (after o1) !! s = Some (FObj org (b ++ c) (length (b ++ c)) false)).
  { rewrite H1. cbn [after handles set_handles].
    apply list_lookup_insert_eq. by eapply lookup_lt_Some. }
  assert (Hf1 : on_disk org = None \/ faults (after o1) = []).
  { rewrite H1. exact Hf. }
  split; [by rewrite H1|]. split; [exact Hs1|].
  subst o2 self. unfold ContentDumper.file.
  rewrite (bind_silent (ret s) _ (after o1) s (after o1) eq_refl).
  rewrite (bind_ok _ _ _ _ _ _ (call_dump_writes_spec ws s _ org _ _ Hf1 Hs1)).
  cbn [ret value after events handles set_handles]. fold c.
  split; [done|].
  rewrite write_at_end, <- app_assoc, <- length_app, <- app_assoc.
  apply list_lookup_insert_eq. by eapply lookup_lt_Some.
Qed.

Lemma file_twice_appends_twice_witness :
  let w := set_handles [FObj StringIO (str "co ") 3 false] empty_world in
  let self := ContentDumper.new (writes [str "k1 "]) in
  f_buf <$> handles (after (ContentDumper.file self (Some 0)
                              (after (ContentDumper.file self (Some 0) w)))) !! 0
  = Some (str "co k1 k1 ").
Proof.
  intros w self.
  destruct (file_twice_appends_twice [str "k1 "] 0 w StringIO (str "co ")
              eq_refl (or_introl eq_refl)) as (_ & _ & _ & H).
  exact (f_equal (fmap f_buf) H).
Defined.

(** X6.  [file(s)] does not look at the stream before it dumps.  On a
    closed stream the first [write] of the strategy raises [ValueError],
    nothing is changed; a strategy that writes nothing gets the closed
    stream back without an error. *)
Theorem file_on_closed_stream
    (ws : list text) (s : handle) (w : World) (org : origin) (b : text) (p : nat) :
  handles w !! s = Some (FObj org b p true) ->
  ContentDumper.file (ContentDumper.new (writes ws)) (Some s) w =
  Outcome (match ws with [] => Ok s | _ :: _ => Raise ValueError end) w [Dumped s].
Proof.
  intros Hs. unfold ContentDumper.file.
  rewrite (bind_silent (ret s) _ w s w eq_refl).
  unfold bind at 1. rewrite call_dump_writes.
  destruct ws as [|t ws].
  - reflexivity.
  - assert (Hw : write s t w = Outcome (Raise ValueError) w []).
    { unfold write. by rewrite (bind_silent _ _ _ _ _ (get_file_spec _ _ _ Hs)). }
    cbn [write_all]. by rewrite (bind_raise _ _ _ _ _ _ Hw).
Qed.

Lemma file_on_closed_stream_witness :
  let w := set_handles [FObj StringIO (str "old") 3 true] empty_world in
  value (ContentDumper.file (ContentDumper.new (writes [str "k1"])) (Some 0) w)
  = Raise ValueError.
Proof.
  intros w.
  rewrite (file_on_closed_stream [str "k1"] 0 w StringIO (str "old") 3 eq_refl).
  reflexivity.
Defined.

Lemma call_dump_writes_then_raise ws e file w o b p :
  on_disk o = None \/ faults w = [] ->
  handles w !! file = Some (FObj o b p false) ->
  call_dump (ContentDumper.new (writes_then_raise ws e)) file w =
  Outcome (Raise e)
    (set_handles (<[file := FObj o (write_at b p (concat ws)) (p + length (concat ws)) false]>
                    (handles w)) w) [Dumped file].
Proof.
  intros Hf Hh.
  unfold call_dump, ContentDumper.new, writes_then_raise, user, lift_user, bind at 1, emit.
  cbn [dump_to_file value after events].
  by rewrite (bind_silent _ _ _ _ _ (write_all_spec _ _ _ _ _ _ Hf Hh)).
Qed.

Lemma open_w_calm p w :
  faults w = [] -> value (open_w p w) = Ok (length (handles w)).
Proof.
  intros Hf. unfold open_w. by rewrite (bind_silent _ _ _ _ _ (syscall_calm _ Hf)).
Qed.

(** X7.  [path] does not undo anything.  When the strategy fails after it
    has written some pieces, the exception comes out, the file is closed,
    and the pieces written before the failure are the content of the
    file. *)
Theorem path_keeps_what_was_written_before_a_failure
    (ws : list text) (e : exn) (p : text) (w : World) :
  faults w = [] ->
  let o := ContentDumper.path (ContentDumper.new (writes_then_raise ws e)) p w in
  value o = Raise e /\
  closed_in (length (handles w)) (after o) /\
  fs (after o) !! p = Some (concat ws).
Proof.
  intros Hf o. subst o.
  rewrite (path_after_open _ _ _ _ (open_w_calm p w Hf)), with_file_outcome.
  erewrite call_dump_writes_then_raise;
    [|right; simpl; by rewrite Hf|simpl; apply lookup_alloc].
  cbn [value after events].
  erewrite close_spec; [| |simpl; by rewrite Hf].
  2:{ simpl. apply list_lookup_insert_eq. rewrite length_app. simpl. lia. }
  cbn [value after]. split; [done|]. split.
  - eexists. split.
    + simpl. rewrite list_insert_insert_eq.
      apply list_lookup_insert_eq. rewrite length_app. simpl. lia.
    + done.
  - simpl. unfold fs_after_close. simpl. rewrite write_at_nil_0. apply lookup_insert_eq.
Qed.

Lemma path_keeps_what_was_written_before_a_failure_witness :
  fs (after (ContentDumper.path
               (ContentDumper.new (writes_then_raise [str "row 1"; str "row 2"] (UserError 9)))
               (str "/out") empty_world)) !! str "/out"
  = Some (str "row 1row 2").
Proof.
  exact (proj2 (proj2 (path_keeps_what_was_written_before_a_failure
                         [str "row 1"; str "row 2"] (UserError 9) (str "/out") empty_world
                         eq_refl))).
Defined.

(** X8.  [path(p)] with a write-only strategy replaces the whole previous
    content of [p] and changes no other file; the file objects that exist
    already are left as they are. *)
Theorem path_replaces_only_its_file (ws : list text) (p : text) (w : World) :
  faults w = [] ->
  let o := ContentDumper.path (ContentDumper.new (writes ws)) p w in
  fs (after o) = <[p := concat ws]> (fs w) /\
  (forall q, q <> p -> fs (after o) !! q = fs w !! q) /\
  (forall h f, handles w !! h = Some f -> handles (after o) !! h = Some f) /\
  kept (after o) = kept w.
Proof.
  intros Hf o. subst o. rewrite (path_of_writes ws p w Hf). cbn [after fs handles kept].
  split; [done|]. split; [|split; [|done]].
  - intros q Hq. by apply lookup_insert_ne.
  - intros h f Hh. by apply lookup_app_l_Some.
Qed.

Lemma path_replaces_only_its_file_witness :
  let w := set_fs (<[str "/a" := str "a long old content"]> (<[str "/b" := str "b"]> ∅))
                  empty_world in
  let o := ContentDumper.path (ContentDumper.new (writes [str "new"])) (str "/a") w in
  fs (after o) !! str "/a" = Some (str "new") /\
  fs (after o) !! str "/b" = Some (str "b").
Proof.
  intros w o.
  destruct (path_replaces_only_its_file [str "new"] (str "/a") w eq_refl) as (H1 & H2 & _).
  split.
  - unfold o. rewrite H1. apply lookup_insert_eq.
  - unfold o. by rewrite H2.
Defined.

(** ** Temporary files, further *)



Lemma temporary_path_created (self : ContentDumper) w p :
  value (ContentDumper.temporary_path self w) = Ok p ->
  exists file, value (NamedTemporaryFile ModeWPlus UTF8 false w) = Ok file.
Proof.
  intros H.
  destruct (value (NamedTemporaryFile ModeWPlus UTF8 false w)) as [file|e] eqn:E;
    [by exists file|].
  unfold ContentDumper.temporary_path, ContentDumper._temporary_file in H.
  by rewrite value_bind, value_bind, E in H.
Qed.

Lemma temporary_path_of_writes_inv ws w p :
  faults w = [] -> kept w = [] ->
  value (ContentDumper.temporary_path (ContentDumper.new (writes ws)) w) = Ok p ->
  fs w !! p = None /\
  exists seed,
    ContentDumper.temporary_path (ContentDumper.new (writes ws)) w =
    Outcome (Ok p)
      (MkWorld (handles w ++ [FObj (TemporaryFile p ModeWPlus UTF8 false)
                                   (concat ws) (length (concat ws)) true])
               (<[p := concat ws]> (fs w)) [] seed [])
      [Dumped (length (handles w))].
Proof.
  intros Hf Hk H.
  destruct (temporary_path_created _ _ _ H) as [file Hc].
  assert (Hnk : file ∉ kept w) by (rewrite Hk; apply not_elem_of_nil).
  destruct (temporary_path_of_writes ws w file Hf Hnk Hc) as (q & seed & Hq & Ht).
  destruct (NamedTemporaryFile_inv _ _ _ _ _ Hc) as (_ & _ & _ & -> & _).
  rewrite Ht in H. injection H as <-. split; [done|].
  exists seed. by rewrite Ht, Hk.
Qed.

(** X10.  Two calls of [temporary_path] never give the same path: the
    second file is a new one, and both files are on disk afterwards, each
    with its own content. *)
Theorem temporary_paths_are_distinct
    (ws1 ws2 : list text) (w : World) (p1 p2 : text) :
  faults w = [] -> kept w = [] ->
  let o1 := ContentDumper.temporary_path (ContentDumper.new (writes ws1)) w in
  let o2 := ContentDumper.temporary_path (ContentDumper.new (writes ws2)) (after o1) in
  value o1 = Ok p1 -> value o2 = Ok p2 ->
  p1 <> p2 /\
  fs (after o2) !! p1 = Some (concat ws1) /\
  fs (after o2) !! p2 = Some (concat ws2).
Proof.
  intros Hf Hk o1 o2 H1 H2.
  destruct (temporary_path_of_writes_inv ws1 w p1 Hf Hk H1) as (_ & seed1 & E1).
  subst o2. fold o1 in E1. rewrite E1 in H2 |- *. cbn [after] in *.
  pose proof (fun Ha Hb => temporary_path_of_writes_inv ws2 _ p2 Ha Hb H2) as Hsecond.
  destruct (Hsecond eq_refl eq_refl) as (Hnew & seed2 & E2). clear Hsecond.
  rewrite E2. cbn [after fs] in *.
  assert (Hne : p1 <> p2).
  { intros ->. by rewrite lookup_insert_eq in Hnew. }
  split; [done|]. split.
  - rewrite lookup_insert_ne by done. apply lookup_insert_eq.
  - apply lookup_insert_eq.
Qed.

Lemma temporary_paths_are_distinct_witness :
  let self := ContentDumper.new (writes [str "k1"]) in
  let o1 := ContentDumper.temporary_path self empty_world in
  let o2 := ContentDumper.temporary_path self (after o1) in
  tmpname 0 <> tmpname 1 /\
  fs (after o2) !! tmpname 0 = Some (str "k1") /\
  fs (after o2) !! tmpname 1 = Some (str "k1").
Proof.
  intros self o1 o2.
  exact (temporary_paths_are_distinct [str "k1"] [str "k1"] empty_world
           (tmpname 0) (tmpname 1) eq_refl eq_refl eq_refl eq_refl).
Defined.

(** X11.  [temporary_path] never writes over a file that exists: the path
    it returns named no file before the call, and every file that was
    there before has its content unchanged. *)
Theorem temporary_path_spares_existing_files (ws : list text) (w : World) (p : text) :
  faults w = [] -> kept w = [] ->
  let o := ContentDumper.temporary_path (ContentDumper.new (writes ws)) w in
  value o = Ok p ->
  fs w !! p = None /\
  fs (after o) !! p = Some (concat ws) /\
  forall q c, fs w !! q = Some c -> fs (after o) !! q = Some c.
Proof.
  intros Hf Hk o H.
  destruct (temporary_path_of_writes_inv ws w p Hf Hk H) as (Hnew & seed & E).
  subst o. rewrite E. cbn [after fs].
  split; [done|]. split; [apply lookup_insert_eq|].
  intros q c Hq. rewrite lookup_insert_ne; [done|]. intros ->. congruence.
Qed.

Lemma temporary_path_spares_existing_files_witness :
  let w := set_fs (<[tmpname 0 := str "mine"]> ∅) empty_world in
  let o := ContentDumper.temporary_path (ContentDumper.new (writes [str "k1"])) w in
  fs (after o) !! tmpname 0 = Some (str "mine") /\
  fs (after o) !! tmpname 1 = Some (str "k1").
Proof.
  intros w o.
  destruct (temporary_path_spares_existing_files [str "k1"] w (tmpname 1)
              eq_refl eq_refl eq_refl) as (_ & H1 & H2).
  split; [exact (H2 (tmpname 0) (str "mine") eq_refl) | exact H1].
Defined.

Lemma NamedTemporaryFile_raise m enc d w e :
  value (NamedTemporaryFile m enc d w) = Raise e ->
  NamedTemporaryFile m enc d w =
    Outcome (Raise e) (after (NamedTemporaryFile m enc d w)) [] /\
  fs (after (NamedTemporaryFile m enc d w)) = fs w /\
  handles (after (NamedTemporaryFile m enc d w)) = handles w.
Proof.
  intros H. split.
  - rewrite (outcome_eta (NamedTemporaryFile m enc d w)) at 1.
    by rewrite H, silent_NamedTemporaryFile.
  - revert H. unfold NamedTemporaryFile.
    rewrite value_bind, after_bind.
    destruct (value (syscall w)) as [[]|e'] eqn:Hs.
    + rewrite (syscall_ok _ Hs). cbn [after].
      unfold bind at 1 2, get_world. cbn [value after].
      run.
      destruct (mkstemp_inner TMP_MAX (tmp_seed w) (fs w)) as [[p seed]|]; [done|].
      intros _. by destruct w.
    + intros _. unfold syscall in *. by destruct (faults w) as [|[e''|] t].
Qed.

(** X12.  When the temporary file cannot be created, [temporary_file]
    raises the exception of the creation; the write-strategy is not
    called, and no file and no file object has been made. *)
Theorem temporary_file_creation_failure
    (self : ContentDumper) (delete : bool) (w : World) (e : exn) :
  value (NamedTemporaryFile ModeWPlus UTF8 delete w) = Raise e ->
  let o := ContentDumper.temporary_file self delete w in
  value o = Raise e /\ events o = [] /\
  fs (after o) = fs w /\ handles (after o) = handles w.
Proof.
  intros H o. subst o.
  destruct (NamedTemporaryFile_raise _ _ _ _ _ H) as (E & Hfs & Hh).
  unfold ContentDumper.temporary_file, ContentDumper._temporary_file.
  rewrite (bind_raise _ _ _ _ _ _ E). done.
Qed.

Lemma temporary_file_creation_failure_witness :
  let w := set_faults [Some (OSError 28)] empty_world in
  let o := ContentDumper.temporary_file (ContentDumper.new (writes [str "k1"])) true w in
  value o = Raise (OSError 28) /\ events o = [].
Proof.
  intros w o.
  destruct (temporary_file_creation_failure (ContentDumper.new (writes [str "k1"])) true w
              (OSError 28) eq_refl) as (H1 & H2 & _).
  split; [exact H1 | exact H2].
Defined.

(** * Further properties of JSONDumper *)






Lemma json_string_value (on_dump : World -> result pyobj * World) w w1 x :
  on_dump (after (StringIO_new w)) = (Ok x, w1) ->
  handles w1 !! length (handles w) = Some (FObj StringIO [] 0 false) ->
  value (JSONDumper.string (JSONDumper.new on_dump) w) = json_dumps x.
Proof.
  intros Hp Hh.
  unfold JSONDumper.string, ContentDumper.string.
  rewrite value_bind. change (value (StringIO_new w)) with (Ok (length (handles w))).
  cbn match. rewrite value_bind.
  destruct (after_call_dump (JSONDumper.super (JSONDumper.new on_dump))
              (length (handles w)) (after (StringIO_new w))) as [Ha Hv].
  cbn [dump_to_file JSONDumper.super] in Ha, Hv.
  rewrite _dump_to_file_run in Ha, Hv. cbn [dump_to_json JSONDumper.new] in Ha, Hv.
  rewrite Hp in Ha, Hv. cbn [fst snd value after] in Ha, Hv.
  rewrite (json_dump_spec x _ w1 StringIO [] 0 (or_introl eq_refl) Hh) in Ha, Hv.
  cbn [value after] in Ha, Hv. rewrite Hv, Ha. unfold json_dumps.
  destruct (snd (iterencode x)); cbn beta iota; [done|].
  rewrite write_at_nil_0.
  eapply rewind_and_read;
    [cbn [handles set_handles]; apply list_lookup_insert_eq; by eapply lookup_lt_Some|done].
Qed.

(** ** The characters of a document *)

Ltac printable_text :=
  repeat (constructor; [unfold printable; vm_compute; lia|]); try constructor.

Lemma printable_uint_text u : Forall printable (uint_text u).
Proof. induction u; cbn [uint_text]; constructor; try done; unfold printable; vm_compute; lia. Qed.

Lemma printable_intstr z : Forall printable (intstr z).
Proof.
  unfold intstr. destruct (Z.to_int z); [apply printable_uint_text|].
  constructor; [unfold printable; vm_compute; lia|apply printable_uint_text].
Qed.

Lemma printable_hexdigit k : k < 16 -> printable (hexdigit k).
Proof.
  intros Hk. unfold hexdigit, printable.
  destruct (k <? 10) eqn:E; rewrite nat_ascii_embedding; lia.
Qed.

Lemma printable_escape_char c : Forall printable (escape_char c).
Proof.
  pose proof (nat_ascii_bounded c) as Hb.
  unfold escape_char. cbv zeta.
  repeat match goal with
         | |- Forall _ (if ?t then _ else _) => destruct t eqn:?
         end; try solve [printable_text].
  - constructor; [|constructor]. unfold printable.
    match goal with H : (_ && _) = true |- _ => apply andb_prop in H; destruct H end.
    split; [by apply Nat.leb_le|by apply Nat.leb_le].
  - repeat (constructor; [unfold printable; vm_compute; lia|]).
    constructor; [|constructor; [|constructor]]; apply printable_hexdigit.
    + apply Nat.Div0.div_lt_upper_bound. lia.
    + apply Nat.mod_upper_bound. lia.
Qed.

Lemma printable_encode_basestring_ascii s : Forall printable (encode_basestring_ascii s).
Proof.
  unfold encode_basestring_ascii.
  constructor; [unfold printable; vm_compute; lia|].
  apply Forall_app. split; [|printable_text].
  induction s as [|c s IH]; [constructor|].
  cbn [map concat]. apply Forall_app. split; [apply printable_escape_char|done].
Qed.

Lemma printable_json_text x : Forall printable (json_text x).
Proof.
  induction x as [| b | z | s | l IH | l IH | d IH | id] using pyobj_ind.
  - printable_text.
  - destruct b; printable_text.
  - apply printable_intstr.
  - apply printable_encode_basestring_ascii.
  - destruct IH as [|v l Hv Hl]; [printable_text|].
    cbn [json_text]. constructor; [unfold printable; vm_compute; lia|].
    apply Forall_app. split; [done|].
    induction Hl as [|v' l' Hv' _ IHl]; cbn [list_tail]; [printable_text|].
    do 2 (constructor; [unfold printable; vm_compute; lia|]).
    apply Forall_app. by split.
  - destruct IH as [|v l Hv Hl]; [printable_text|].
    cbn [json_text]. constructor; [unfold printable; vm_compute; lia|].
    apply Forall_app. split; [done|].
    induction Hl as [|v' l' Hv' _ IHl]; cbn [list_tail]; [printable_text|].
    do 2 (constructor; [unfold printable; vm_compute; lia|]).
    apply Forall_app. by split.
  - assert (Hitem : forall k v, Forall printable (json_text v) ->
                                Forall printable (dict_item json_text k v)).
    { intros k v Hv. unfold dict_item.
      apply Forall_app. split; [apply printable_encode_basestring_ascii|].
      do 2 (constructor; [unfold printable; vm_compute; lia|]). done. }
    destruct IH as [|[k v] d Hv Hd]; [printable_text|].
    cbn [json_text]. constructor; [unfold printable; vm_compute; lia|].
    apply Forall_app. split; [by apply Hitem|].
    induction Hd as [|[k' v'] d' Hv' _ IHd]; cbn [dict_tail]; [printable_text|].
    do 2 (constructor; [unfold printable; vm_compute; lia|]).
    apply Forall_app. split; [by apply Hitem|done].
  - constructor.
Qed.

(** X15.  Whatever [JSONDumper.string] returns is made of printable ASCII
    characters only (codes 32 to 126): every other character of a string
    or of a key is written as an escape. *)
Theorem json_string_is_printable_ascii
    (on_dump : World -> result pyobj * World) (w w1 : World) (x : pyobj) (s : text) :
  on_dump (after (StringIO_new w)) = (Ok x, w1) ->
  handles w1 !! length (handles w) = Some (FObj StringIO [] 0 false) ->
  value (JSONDumper.string (JSONDumper.new on_dump) w) = Ok s ->
  Forall printable s.
Proof.
  intros Hp Hh Hs. rewrite (json_string_value on_dump w w1 x Hp Hh) in Hs.
  destruct (json_serializable x) eqn:E.
  - rewrite (json_dumps_text x E) in Hs. injection Hs as <-. apply printable_json_text.
  - by rewrite (json_dumps_TypeError x E) in Hs.
Qed.

Lemma json_string_is_printable_ascii_witness :
  Forall printable
    (str "[" ++ [quote; backslash] ++ str "u00e9" ++ [backslash] ++ str "n" ++ [quote]
     ++ str "]").
Proof.
  exact (json_string_is_printable_ascii
           (fun w => (Ok (PyList [PyStr ["233"%char; "010"%char]]), w))
           empty_world (after (StringIO_new empty_world))
           (PyList [PyStr ["233"%char; "010"%char]]) _ eq_refl eq_refl eq_refl).
Defined.

(** ** What comes back for values that are not JSON-compatible *)





(** * Examples *)

(** [path] with a strategy that raises while writing: the exception comes
    out as it is, the file is closed, and what was written before is in
    the file. *)
Example path_when_strategy_raises :
  let o := ContentDumper.path (ContentDumper.new failing_strategy) (str "/out") empty_world in
  value o = Raise (UserError 1) /\
  f_closed <$> handles (after o) !! 0 = Some true /\
  fs (after o) !! str "/out" = Some (str "row 1").
Proof. vm_compute. repeat split; reflexivity. Qed.

(** [path] when the disk is full at the moment the file is closed. *)
Example path_when_close_fails :
  let w := set_faults [None; None; Some (OSError 28)] empty_world in
  let o := ContentDumper.path (ContentDumper.new (writes [str "row 1"])) (str "/out") w in
  value o = Raise (OSError 28) /\
  f_closed <$> handles (after o) !! 0 = Some true.
Proof. vm_compute. repeat split; reflexivity. Qed.

(** [temporary_path] with a strategy that only writes: the finaliser has
    closed the file when the path comes back. *)
Example temporary_path_of_plain_strategy :
  let o := ContentDumper.temporary_path (ContentDumper.new (writes [str "k2tog"])) empty_world in
  value o = Ok (tmpname 0) /\
  f_closed <$> handles (after o) !! 0 = Some true /\
  fs (after o) !! tmpname 0 = Some (str "k2tog").
Proof. vm_compute. repeat split; reflexivity. Qed.

(** A provider whose answer depends on the moment it is asked: every call
    of [string] encodes the object of that very call. *)
Example provider_is_asked_every_time :
  let self := JSONDumper.new (fun w => (Ok (PyInt (Z.of_nat (length (handles w)))), w)) in
  let first := JSONDumper.string self empty_world in
  let second := JSONDumper.string self (after first) in
  value first = Ok (str "1") /\ value second = Ok (str "2") /\
  encoded_objects (events first) = [PyInt 1] /\
  encoded_objects (events second) = [PyInt 2].
Proof. vm_compute. repeat split; reflexivity. Qed.

(** Values that are serialisable without being JSON-compatible do not come
    back as they were: a tuple comes back as a list, an [int] key as a
    string. *)
Example tuple_comes_back_as_list :
  json_dumps (PyTuple [PyInt 1; PyInt 2]) = Ok (str "[1, 2]") /\
  json_loads (str "[1, 2]") = Some (PyList [PyInt 1; PyInt 2]).
Proof. vm_compute. split; reflexivity. Qed.

Example int_key_comes_back_as_str :
  json_dumps (PyDict [(KInt 3, PyNone)])
    = Ok (str "{" ++ [quote] ++ str "3" ++ [quote] ++ str ": null}") /\
  json_loads (str "{" ++ [quote] ++ str "3" ++ [quote] ++ str ": null}")
    = Some (PyDict [(KStr (str "3"), PyNone)]).
Proof. vm_compute. split; reflexivity. Qed.

(** The encoder stops at the first object it has no case for; what it
    yielded before has been written. *)
Example unserialisable_object_in_a_list :
  let self := JSONDumper.new (fun w => (Ok (PyList [PyInt 1; PyOther 0]), w)) in
  let o := JSONDumper.file self None empty_world in
  value o = Raise TypeError /\
  f_buf <$> handles (after o) !! 0 = Some (str "[1, ").
Proof. vm_compute. repeat split; reflexivity. Qed.
